(** * Condition variables of the user-space thread library (thr_cond.c)

    A shallow embedding of [lib/libkse/thread/thr_cond.c]: the condition
    variable object, its priority-ordered wait queue and the wait,
    timed-wait, signal and broadcast entry points, followed by the
    properties established about them. *)

From stdpp Require Import base numbers option list sorting gmap.

Local Open Scope Z_scope.

(** ** Constants of the headers *)

(** The status codes of <errno.h>, a system header that is not among the
    sources, with the values FreeBSD gives them.  The development relies
    only on their being different from 0, from -1 and from each other. *)
Definition ENOMEM : Z := 12.
Definition EINVAL : Z := 22.
Definition ETIMEDOUT : Z := 60.

(** Modelled from the spec: the flag masks of pthread_private.h, which is
    not among the sources.  The spec has [INITIALIZED] as a bit of the
    flags of a condition variable and the membership flag as a flag of a
    thread; each is a single bit here, and the development relies only on
    the masks being non-zero (see [mask_set_test] and [mask_clear_test]). *)
Definition COND_FLAGS_INITED : Z := 0x02.
Definition PTHREAD_FLAGS_IN_CONDQ : Z := 0x0080.

(** ** Data model *)

(** [enum pthread_cond_type] *)
Inductive pthread_cond_type := COND_TYPE_FAST | COND_TYPE_MAX.

(** [enum pthread_state]: the scheduling states this file names, and some of
    the others a thread can be in. *)
Inductive pthread_state :=
  PS_RUNNING | PS_MUTEX_WAIT | PS_COND_WAIT | PS_SLEEP_WAIT | PS_DEAD.

(** [struct timespec] *)
Record timespec := Timespec { tv_sec : Z; tv_nsec : Z }.

(** The fields of [struct pthread] that thr_cond.c reads or writes.  The
    queue link [qe] is represented by the position of the thread in
    [c_queue]; [continuation] is a nullable function pointer. *)
Record struct_pthread := Pthread {
  state : pthread_state;
  flags : Z;
  active_priority : Z;
  timeout : Z;
  interrupted : Z;
  wakeup_time : timespec;
  continuation : option nat
}.

(** [struct pthread_cond].  [c_queue] is the TAILQ of waiting threads, head
    first, holding thread addresses; [c_mutex] is a nullable
    [pthread_mutex_t].  The spinlock word [lock] is represented by the
    [SPINLOCK]/[SPINUNLOCK] events of the trace. *)
Record struct_pthread_cond := PthreadCond {
  c_queue : list nat;
  c_flags : Z;
  c_type : pthread_cond_type;
  c_mutex : option nat
}.

(** A zero-filled thread structure: what an address denotes before anything
    was stored there. *)
Definition pthread_zero : struct_pthread :=
  Pthread PS_RUNNING 0 0 0 0 (Timespec 0 0) None.

#[global] Instance pthread_inhabited : Inhabited struct_pthread := populate pthread_zero.

#[global] Instance pthread_cond_type_eq_dec : EqDecision pthread_cond_type.
Proof. solve_decision. Defined.

#[global] Instance pthread_state_eq_dec : EqDecision pthread_state.
Proof. solve_decision. Defined.

Definition set_state (s : pthread_state) (t : struct_pthread) : struct_pthread :=
  Pthread s (flags t) (active_priority t) (timeout t) (interrupted t)
          (wakeup_time t) (continuation t).

Definition set_flags (f : Z) (t : struct_pthread) : struct_pthread :=
  Pthread (state t) f (active_priority t) (timeout t) (interrupted t)
          (wakeup_time t) (continuation t).

Definition set_timeout (v : Z) (t : struct_pthread) : struct_pthread :=
  Pthread (state t) (flags t) (active_priority t) v (interrupted t)
          (wakeup_time t) (continuation t).

Definition set_interrupted (v : Z) (t : struct_pthread) : struct_pthread :=
  Pthread (state t) (flags t) (active_priority t) (timeout t) v
          (wakeup_time t) (continuation t).

Definition set_wakeup_time (ts : timespec) (t : struct_pthread) : struct_pthread :=
  Pthread (state t) (flags t) (active_priority t) (timeout t) (interrupted t)
          ts (continuation t).

Definition set_c_queue (q : list nat) (c : struct_pthread_cond) : struct_pthread_cond :=
  PthreadCond q (c_flags c) (c_type c) (c_mutex c).

Definition set_c_flags (f : Z) (c : struct_pthread_cond) : struct_pthread_cond :=
  PthreadCond (c_queue c) f (c_type c) (c_mutex c).

Definition set_c_mutex (m : option nat) (c : struct_pthread_cond) : struct_pthread_cond :=
  PthreadCond (c_queue c) (c_flags c) (c_type c) m.

(** The thread table: thread address to thread structure.  Every address
    denotes a structure ([!!!] reads [pthread_zero] where nothing was
    stored), and a store goes through [<[ _ := _ ]>]. *)
Definition deref (ths : gmap nat struct_pthread) (pthread : nat) : struct_pthread :=
  ths !!! pthread.

Definition in_condq (ths : gmap nat struct_pthread) (pthread : nat) : bool :=
  negb (Z.land (flags (deref ths pthread)) PTHREAD_FLAGS_IN_CONDQ =? 0).

(** [(pthread->timeout == 0) && (pthread->interrupted == 0)] *)
Definition eligible (ths : gmap nat struct_pthread) (pthread : nat) : bool :=
  (timeout (deref ths pthread) =? 0) && (interrupted (deref ths pthread) =? 0).

(** [pthread->flags &= ~PTHREAD_FLAGS_IN_CONDQ] *)
Definition clear_in_condq (ths : gmap nat struct_pthread) (pthread : nat)
  : gmap nat struct_pthread :=
  <[pthread := set_flags (Z.land (flags (deref ths pthread))
                                 (Z.lnot PTHREAD_FLAGS_IN_CONDQ))
                         (deref ths pthread)]> ths.

(** [pthread->flags |= PTHREAD_FLAGS_IN_CONDQ] *)
Definition mark_in_condq (ths : gmap nat struct_pthread) (pthread : nat)
  : gmap nat struct_pthread :=
  <[pthread := set_flags (Z.lor (flags (deref ths pthread))
                                PTHREAD_FLAGS_IN_CONDQ)
                         (deref ths pthread)]> ths.

(** ** The tail queue (sys/queue.h) on lists *)

Definition TAILQ_FIRST (q : list nat) : option nat := head q.

Definition TAILQ_LAST (q : list nat) : option nat := last q.

Definition TAILQ_INSERT_TAIL (q : list nat) (elm : nat) : list nat := q ++ [elm].

(** [TAILQ_REMOVE(head, elm, field)].  The macro unlinks [elm] through the
    link fields of [elm] itself: it stores the successor of [elm] through
    the back pointer of [elm], and that back pointer into the successor (or
    into the tail pointer of the head).  For an element linked in this
    queue this takes it out and keeps the others in their order.  For an
    element that is not linked in this queue the stores go through links
    that this list does not represent (links left over by a [TAILQ_INIT]
    over queued threads, or the links of another queue), and what the queue
    holds afterwards is not a function of the list: [None]. *)
Fixpoint TAILQ_REMOVE (q : list nat) (elm : nat) : option (list nat) :=
  match q with
  | [] => None
  | x :: q' => if decide (x = elm) then Some q' else cons x <$> TAILQ_REMOVE q' elm
  end.

(** ** The wait queue *)

(** [cond_queue_deq]: the loop pops the head, clears its membership flag
    and stops at the first popped thread that neither timed out nor was
    interrupted.  The head removal [TAILQ_REMOVE (pthread :: rest) pthread]
    leaves [rest] (lemma [TAILQ_REMOVE_head]); the loop runs once per
    queued thread at most. *)
Fixpoint cond_queue_deq_loop (q : list nat) (ths : gmap nat struct_pthread)
  : option nat * list nat * gmap nat struct_pthread :=
  match q with
  | [] => (None, [], ths)
  | pthread :: rest =>
      let ths' := clear_in_condq ths pthread in
      if eligible ths' pthread then (Some pthread, rest, ths')
      else cond_queue_deq_loop rest ths'
  end.

Definition cond_queue_deq (cond : struct_pthread_cond) (ths : gmap nat struct_pthread)
  : option nat * struct_pthread_cond * gmap nat struct_pthread :=
  let '(pthread, q, ths') := cond_queue_deq_loop (c_queue cond) ths in
  (pthread, set_c_queue q cond, ths').

(** [cond_queue_remove]; [None] is a [TAILQ_REMOVE] of a thread that carries
    the membership flag without being linked in this queue. *)
Definition cond_queue_remove (cond : struct_pthread_cond) (pthread : nat)
    (ths : gmap nat struct_pthread)
  : option (struct_pthread_cond * gmap nat struct_pthread) :=
  if in_condq ths pthread then
    q ← TAILQ_REMOVE (c_queue cond) pthread;
    Some (set_c_queue q cond, clear_in_condq ths pthread)
  else Some (cond, ths).

(** The scan of [cond_queue_enq]: [tid] walks from the head while
    [pthread->active_priority <= tid->active_priority]; the new thread is
    linked in front of the thread the walk stops at.  Walking off the end
    makes the loop condition read through a null [tid]: [None]. *)
Fixpoint cond_queue_enq_scan (ths : gmap nat struct_pthread) (pthread : nat)
    (q : list nat) : option (list nat) :=
  match q with
  | [] => None
  | tid :: rest =>
      if active_priority (deref ths pthread) <=? active_priority (deref ths tid)
      then cons tid <$> cond_queue_enq_scan ths pthread rest
      else Some (pthread :: tid :: rest)
  end.

(** [cond_queue_enq]; [None] is a read through a null pointer. *)
Definition cond_queue_enq (cond : struct_pthread_cond) (pthread : nat)
    (ths : gmap nat struct_pthread) : option (struct_pthread_cond * gmap nat struct_pthread) :=
  q ← (match TAILQ_LAST (c_queue cond) with
       | None => Some (TAILQ_INSERT_TAIL (c_queue cond) pthread)
       | Some tid =>
           if active_priority (deref ths pthread) <=? active_priority (deref ths tid)
           then Some (TAILQ_INSERT_TAIL (c_queue cond) pthread)
           else cond_queue_enq_scan ths pthread (c_queue cond)
       end);
  Some (set_c_queue q cond, mark_in_condq ths pthread).

(** ** The world the entry points run in *)

(** Calls into the collaborators of this file (scheduler, mutex layer,
    cancellation and signal deferral), in program order. *)
Inductive event :=
  | EnterCancellationPoint
  | LeaveCancellationPoint
  | SPINLOCK (cond : nat)
  | SPINUNLOCK (cond : nat)
  | MutexCvUnlock (mutex : nat)
  | MutexCvLock (mutex : nat)
  | SigDefer
  | SigUndefer
  | SchedStateUnlock (st : pthread_state) (cond : nat)
  | Continuation (fn : nat) (arg : nat).

#[global] Instance event_eq_dec : EqDecision event.
Proof. solve_decision. Defined.

(** [conds] maps the address of a [pthread_cond_t] handle to the structure
    the handle points to; a handle that is absent holds NULL (the
    zero-valued static placeholder, or a destroyed variable).  [mutexes]
    does the same for [pthread_mutex_t] handles: the address of a handle to
    the [struct pthread_mutex *] it holds, absent when that is NULL. *)
Record world := World {
  conds : gmap nat struct_pthread_cond;
  mutexes : gmap nat nat;
  threads : gmap nat struct_pthread;
  errno : Z;
  trace : list event
}.

(** The outcome of running a piece of C: it finishes in a new world, or it
    reads through a null pointer ([Fault]), or it unlinks a thread through
    queue links that are not those of the queue at hand ([Stale]: the
    stores of [TAILQ_REMOVE] land where the list of the queue does not say,
    and the run is followed no further), or a loop is cut by its bound
    ([Spin], shown unreachable in [pthread_cond_broadcast_terminates]). *)
Inductive result (A : Type) :=
  | Done (a : A) (w : world)
  | Fault
  | Stale
  | Spin.
Arguments Done {A} a w.
Arguments Fault {A}.
Arguments Stale {A}.
Arguments Spin {A}.

Definition M (A : Type) : Type := world → result A.

#[global] Instance M_ret : MRet M := λ A a w, Done a w.

#[global] Instance M_bind : MBind M := λ A B k m w,
  match m w with
  | Done a w' => k a w'
  | Fault => Fault
  | Stale => Stale
  | Spin => Spin
  end.

Definition fault {A} : M A := λ _, Fault.

Definition stale {A} : M A := λ _, Stale.

Definition emit (e : event) : M unit := λ w,
  Done () (World (conds w) (mutexes w) (threads w) (errno w) (trace w ++ [e])).

Definition set_errno (v : Z) : M unit := λ w,
  Done () (World (conds w) (mutexes w) (threads w) v (trace w)).

(** Reads the handle at [cond]. *)
Definition load_handle (cond : nat) : M (option struct_pthread_cond) := λ w,
  Done (conds w !! cond) w.

(** The structure behind the handle at [cond]; reading a field through a
    null handle faults. *)
Definition get_cond (cond : nat) : M struct_pthread_cond := λ w,
  match conds w !! cond with
  | Some c => Done c w
  | None => Fault
  end.

Definition put_cond (cond : nat) (c : struct_pthread_cond) : M unit := λ w,
  Done () (World (<[cond := c]> (conds w)) (mutexes w) (threads w) (errno w) (trace w)).

Definition free_cond (cond : nat) : M unit := λ w,
  Done () (World (delete cond (conds w)) (mutexes w) (threads w) (errno w) (trace w)).

Definition get_threads : M (gmap nat struct_pthread) := λ w, Done (threads w) w.

Definition put_threads (ths : gmap nat struct_pthread) : M unit := λ w,
  Done () (World (conds w) (mutexes w) ths (errno w) (trace w)).

Definition modify_thread (pthread : nat) (f : struct_pthread → struct_pthread)
  : M unit := λ w,
  Done () (World (conds w) (mutexes w) (<[pthread := f (deref (threads w) pthread)]> (threads w))
                 (errno w) (trace w)).

(** *** Collaborators *)

Definition _thread_enter_cancellation_point : M unit := emit EnterCancellationPoint.
Definition _thread_leave_cancellation_point : M unit := emit LeaveCancellationPoint.
Definition _SPINLOCK (cond : nat) : M unit := emit (SPINLOCK cond).
Definition _SPINUNLOCK (cond : nat) : M unit := emit (SPINUNLOCK cond).
Definition _thread_kern_sig_defer : M unit := emit SigDefer.
Definition _thread_kern_sig_undefer : M unit := emit SigUndefer.

(** Reads the mutex handle at [mutex]. *)
Definition load_mutex (mutex : nat) : M (option nat) := λ w,
  Done (mutexes w !! mutex) w.

(** The mutex layer is outside this file: a call on the handle at address
    [mutex] is recorded and answers with the status [rv] chosen by the
    environment. *)
Definition _mutex_cv_unlock (mutex : nat) (rv : Z) : M Z :=
  emit (MutexCvUnlock mutex);; mret rv.

Definition _mutex_cv_lock (mutex : nat) (rv : Z) : M Z :=
  emit (MutexCvLock mutex);; mret rv.

(** Modelled from the spec: PTHREAD_NEW_STATE of pthread_private.h, the
    scheduler's thread-state transition; with [PS_RUNNING] it transitions
    the thread to runnable. *)
Definition PTHREAD_NEW_STATE (ths : gmap nat struct_pthread) (pthread : nat)
    (st : pthread_state) : gmap nat struct_pthread :=
  <[pthread := set_state st (deref ths pthread)]> ths.

(** Modelled from the spec: _thread_kern_sched_state_unlock of the
    scheduler, which atomically marks the calling thread blocked and
    releases the condition variable's lock in one step.  The caller runs
    again only when the scheduler reschedules it. *)
Definition _thread_kern_sched_state_unlock (thread_run : nat)
    (st : pthread_state) (cond : nat) : M unit :=
  modify_thread thread_run (set_state st);;
  emit (SchedStateUnlock st cond).

(** ** Initialisation *)

(** [pthread_cond_init].  [cond_attr] is a nullable pointer to a nullable
    attribute handle; [malloc] is what the allocator answers: [None] for
    NULL, [Some g] for a block whose [c_flags] word holds [g] (the other
    fields are overwritten before use). *)
Definition pthread_cond_init (cond : option nat)
    (cond_attr : option (option pthread_cond_type)) (malloc : option Z) : M Z :=
  match cond with
  | None => mret EINVAL
  | Some l =>
      let type := match cond_attr with
                  | Some (Some ty) => ty
                  | _ => COND_TYPE_FAST
                  end in
      let rval := match type with
                  | COND_TYPE_FAST => 0
                  | _ => EINVAL
                  end in
      if rval =? 0 then
        match malloc with
        | None => mret ENOMEM
        | Some g =>
            put_cond l (PthreadCond [] (Z.lor g COND_FLAGS_INITED) type None);;
            mret rval
        end
      else mret rval
  end.

(** [_cond_reinit] *)
Definition _cond_reinit (cond : option nat) (malloc : option Z) : M Z :=
  match cond with
  | None => mret EINVAL
  | Some l =>
      p ← load_handle l;
      match p with
      | None => pthread_cond_init cond None malloc
      | Some _ =>
          put_cond l (PthreadCond [] COND_FLAGS_INITED COND_TYPE_FAST None);;
          mret 0
      end
  end.

(** [pthread_cond_destroy] *)
Definition pthread_cond_destroy (cond : option nat) : M Z :=
  match cond with
  | None => mret EINVAL
  | Some l =>
      p ← load_handle l;
      match p with
      | None => mret EINVAL
      | Some _ => _SPINLOCK l;; free_cond l;; mret 0
      end
  end.

(** ** Pieces shared by wait and timed wait *)

(** Where a wait stands when control leaves the calling thread: it returned
    a status, or the thread is blocked in the scheduler and the rest of the
    function ([..._resume]) runs when it is scheduled again. *)
Inductive outcome := Returned (rval : Z) | Blocked.

#[global] Instance timespec_eq_dec : EqDecision timespec.
Proof. solve_decision. Defined.

#[global] Instance outcome_eq_dec : EqDecision outcome.
Proof. solve_decision. Defined.

(** The lazy queue initialisation of a statically allocated variable: when
    [c_flags & COND_FLAGS_INITED] is zero, [TAILQ_INIT] the queue and set
    the flag. *)
Definition init_static_queue (l : nat) : M unit :=
  c ← get_cond l;
  if Z.land (c_flags c) COND_FLAGS_INITED =? 0
  then put_cond l (set_c_flags (Z.lor (c_flags c) COND_FLAGS_INITED)
                               (set_c_queue [] c))
  else mret ().

(** The check for no more waiters:
    [if (TAILQ_FIRST(c_queue) == NULL) c_mutex = NULL]. *)
Definition check_no_more_waiters (c : struct_pthread_cond) : struct_pthread_cond :=
  match TAILQ_FIRST (c_queue c) with
  | None => set_c_mutex None c
  | Some _ => c
  end.

(** [cond_queue_enq] of the running thread. *)
Definition enq_self (l thread_run : nat) : M unit :=
  c ← get_cond l;
  ths ← get_threads;
  match cond_queue_enq c thread_run ths with
  | None => fault
  | Some (c', ths') => put_threads ths';; put_cond l c'
  end.

(** [cond_queue_remove] of the running thread followed by the check for no
    more waiters. *)
Definition remove_self (l thread_run : nat) : M unit :=
  c ← get_cond l;
  ths ← get_threads;
  match cond_queue_remove c thread_run ths with
  | None => stale
  | Some (c', ths') =>
      put_threads ths';;
      put_cond l (check_no_more_waiters c')
  end.

(** The code after the [switch]: the continuation of an interrupted thread,
    the two [_thread_leave_cancellation_point] calls and the return. *)
Definition wait_epilogue (thread_run : nat) (interrupted_ : Z) (rval : Z) : M Z :=
  ths ← get_threads;
  (if negb (interrupted_ =? 0) then
     match continuation (deref ths thread_run) with
     | Some fn => emit (Continuation fn thread_run)
     | None => mret ()
     end
   else mret ());;
  _thread_leave_cancellation_point;;
  _thread_leave_cancellation_point;;
  mret rval.

(** [_SPINUNLOCK] and the invalid-argument return, as taken on a rejected
    mutex and on an unknown condition variable type. *)
Definition unlock_and_fail (l thread_run : nat) : M outcome :=
  _SPINUNLOCK l;;
  r ← wait_epilogue thread_run 0 EINVAL;
  mret (Returned r).

(** From [_mutex_cv_unlock] to the point where the thread blocks. *)
Definition unlock_and_block (thread_run l mutex : nat) (unlock_rv : Z) : M outcome :=
  rval ← _mutex_cv_unlock mutex unlock_rv;
  if negb (rval =? 0) then
    remove_self l thread_run;;
    _SPINUNLOCK l;;
    r ← wait_epilogue thread_run 0 rval;
    mret (Returned r)
  else
    _thread_kern_sched_state_unlock thread_run PS_COND_WAIT l;;
    mret Blocked.

(** ** pthread_cond_wait *)

(** The [switch] on the type of the variable in [pthread_cond_wait], entered
    with the structure lock held, up to the point where the caller blocks or
    returns.  [mutex] is the nullable address of the mutex handle. *)
Definition pthread_cond_wait_switch (thread_run l : nat) (mutex : option nat)
    (unlock_rv : Z) : M outcome :=
  c ← get_cond l;
  match c_type c with
  | COND_TYPE_FAST =>
      match mutex with
      | None => unlock_and_fail l thread_run
      | Some a =>
          m ← load_mutex a;
          if bool_decide (c_mutex c ≠ None) && bool_decide (c_mutex c ≠ m)
          then unlock_and_fail l thread_run
          else
            modify_thread thread_run (set_timeout 0);;
            modify_thread thread_run (set_interrupted 0);;
            enq_self l thread_run;;
            c ← get_cond l;
            put_cond l (set_c_mutex m c);;
            modify_thread thread_run
              (λ t, set_wakeup_time (Timespec (-1) (tv_nsec (wakeup_time t))) t);;
            unlock_and_block thread_run l a unlock_rv
      end
  | _ => unlock_and_fail l thread_run
  end.

(** [pthread_cond_wait] up to the point where the caller blocks or
    returns. *)
Definition pthread_cond_wait_enter (thread_run : nat) (cond : option nat)
    (mutex : option nat) (malloc : option Z) (unlock_rv : Z) : M outcome :=
  _thread_enter_cancellation_point;;
  match cond with
  | None => _thread_leave_cancellation_point;; mret (Returned EINVAL)
  | Some l =>
      p ← load_handle l;
      '(entered, rval) ← match p with
                         | Some _ => mret (true, 0)
                         | None => r ← pthread_cond_init cond None malloc;
                                   mret (r =? 0, r)
                         end;
      if entered : bool then
        _thread_enter_cancellation_point;;
        _SPINLOCK l;;
        init_static_queue l;;
        pthread_cond_wait_switch thread_run l mutex unlock_rv
      else
        _thread_leave_cancellation_point;;
        mret (Returned rval)
  end.

(** [pthread_cond_wait] from the return of
    [_thread_kern_sched_state_unlock] to the end. *)
Definition pthread_cond_wait_resume (thread_run l mutex : nat) (lock_rv : Z) : M Z :=
  ths ← get_threads;
  interrupted_ ← (if negb (interrupted (deref ths thread_run) =? 0) then
                    _SPINLOCK l;;
                    remove_self l thread_run;;
                    _SPINUNLOCK l;;
                    mret 1
                  else mret 0);
  rval ← _mutex_cv_lock mutex lock_rv;
  wait_epilogue thread_run interrupted_ rval.

(** ** pthread_cond_timedwait *)

(** The [switch] on the type of the variable in [pthread_cond_timedwait],
    entered with the structure lock held; [ts] is the deadline read through
    [abstime]. *)
Definition pthread_cond_timedwait_switch (thread_run l : nat)
    (mutex : option nat) (ts : timespec) (unlock_rv : Z) : M outcome :=
  c ← get_cond l;
  match c_type c with
  | COND_TYPE_FAST =>
      match mutex with
      | None => unlock_and_fail l thread_run
      | Some a =>
          m ← load_mutex a;
          if bool_decide (c_mutex c ≠ None) && bool_decide (c_mutex c ≠ m)
          then unlock_and_fail l thread_run
          else
            modify_thread thread_run
              (set_wakeup_time (Timespec (tv_sec ts) (tv_nsec ts)));;
            modify_thread thread_run (set_timeout 0);;
            modify_thread thread_run (set_interrupted 0);;
            enq_self l thread_run;;
            c ← get_cond l;
            put_cond l (set_c_mutex m c);;
            unlock_and_block thread_run l a unlock_rv
      end
  | _ => unlock_and_fail l thread_run
  end.

(** [pthread_cond_timedwait] up to the point where the caller blocks or
    returns.  [abstime] is a nullable pointer to the deadline.  The first
    test sets [rval] and falls through: the deadline test that follows reads
    [abstime->tv_sec], and the lazy initialisation after it reads the handle
    at [cond], whatever the first test found. *)
Definition pthread_cond_timedwait_enter (thread_run : nat) (cond : option nat)
    (mutex : option nat) (abstime : option timespec) (malloc : option Z)
    (unlock_rv : Z) : M outcome :=
  _thread_enter_cancellation_point;;
  let rval0 := if bool_decide (cond = None) || bool_decide (abstime = None)
               then EINVAL else 0 in
  match abstime with
  | None => fault
  | Some ts =>
      if (tv_sec ts <? 0) || (tv_nsec ts <? 0) || (tv_nsec ts >=? 1000000000) then
        set_errno EINVAL;;
        _thread_leave_cancellation_point;;
        mret (Returned (-1))
      else
        match cond with
        | None => fault
        | Some l =>
            p ← load_handle l;
            '(entered, rval) ← match p with
                               | Some _ => mret (true, rval0)
                               | None => r ← pthread_cond_init cond None malloc;
                                         mret (r =? 0, r)
                               end;
            if entered : bool then
              _thread_enter_cancellation_point;;
              _SPINLOCK l;;
              init_static_queue l;;
              pthread_cond_timedwait_switch thread_run l mutex ts unlock_rv
            else
              _thread_leave_cancellation_point;;
              mret (Returned rval)
        end
  end.

(** [pthread_cond_timedwait] from the return of
    [_thread_kern_sched_state_unlock] to the end. *)
Definition pthread_cond_timedwait_resume (thread_run l mutex : nat) (lock_rv : Z)
  : M Z :=
  ths ← get_threads;
  if (timeout (deref ths thread_run) =? 0) && (interrupted (deref ths thread_run) =? 0)
  then
    rval ← _mutex_cv_lock mutex lock_rv;
    wait_epilogue thread_run 0 rval
  else
    let interrupted_ := interrupted (deref ths thread_run) in
    _SPINLOCK l;;
    remove_self l thread_run;;
    _SPINUNLOCK l;;
    _mutex_cv_lock mutex lock_rv;;
    wait_epilogue thread_run interrupted_ ETIMEDOUT.

(** ** pthread_cond_signal *)

Definition pthread_cond_signal (cond : option nat) : M Z :=
  match cond with
  | None => mret EINVAL
  | Some l =>
      p ← load_handle l;
      match p with
      | None => mret EINVAL
      | Some _ =>
          _thread_kern_sig_defer;;
          _SPINLOCK l;;
          c ← get_cond l;
          rval ← match c_type c with
                 | COND_TYPE_FAST =>
                     ths ← get_threads;
                     let '(pthread, c', ths') := cond_queue_deq c ths in
                     put_threads (match pthread with
                                  | Some t => PTHREAD_NEW_STATE ths' t PS_RUNNING
                                  | None => ths'
                                  end);;
                     put_cond l (check_no_more_waiters c');;
                     mret 0
                 | _ => mret EINVAL
                 end;
          _SPINUNLOCK l;;
          _thread_kern_sig_undefer;;
          mret rval
      end
  end.

(** ** pthread_cond_broadcast *)

(** [while ((pthread = cond_queue_deq(cond)) != NULL) PTHREAD_NEW_STATE(pthread, PS_RUNNING);]
    cut after [fuel] calls of [cond_queue_deq]. *)
Fixpoint broadcast_loop (fuel : nat) (c : struct_pthread_cond)
    (ths : gmap nat struct_pthread)
  : option (struct_pthread_cond * gmap nat struct_pthread) :=
  match fuel with
  | O => None
  | S fuel' =>
      let '(pthread, c', ths') := cond_queue_deq c ths in
      match pthread with
      | Some t => broadcast_loop fuel' c' (PTHREAD_NEW_STATE ths' t PS_RUNNING)
      | None => Some (c', ths')
      end
  end.

(** The loop is given one call more than there are queued threads. *)
Definition pthread_cond_broadcast (cond : option nat) : M Z :=
  match cond with
  | None => mret EINVAL
  | Some l =>
      p ← load_handle l;
      match p with
      | None => mret EINVAL
      | Some _ =>
          _thread_kern_sig_defer;;
          _SPINLOCK l;;
          c ← get_cond l;
          rval ← match c_type c with
                 | COND_TYPE_FAST =>
                     ths ← get_threads;
                     match broadcast_loop (S (length (c_queue c))) c ths with
                     | None => λ _, Spin
                     | Some (c', ths') =>
                         put_threads ths';;
                         put_cond l (set_c_mutex None c');;
                         mret 0
                     end
                 | _ => mret EINVAL
                 end;
          _SPINUNLOCK l;;
          _thread_kern_sig_undefer;;
          mret rval
      end
  end.

(** * Vocabulary of the properties *)

(** A thread structure with its queue-membership flag cleared and nothing
    else changed. *)
Definition unlinked (s : struct_pthread) : struct_pthread :=
  set_flags (Z.land (flags s) (Z.lnot PTHREAD_FLAGS_IN_CONDQ)) s.

(** The priority the queue is ordered by. *)
Definition priority (ths : gmap nat struct_pthread) (pthread : nat) : Z :=
  active_priority (deref ths pthread).

(** Head first, priorities never increase along the queue. *)
Definition priority_ordered (ths : gmap nat struct_pthread) (q : list nat) : Prop :=
  StronglySorted (λ a b, priority ths b ≤ priority ths a) q.

(** Sequences of queue operations. *)
Inductive queue_op := Enq (pthread : nat) | Deq.

Definition run_queue_op (op : queue_op)
    (s : struct_pthread_cond * gmap nat struct_pthread)
  : option (struct_pthread_cond * gmap nat struct_pthread) :=
  match op with
  | Enq pthread => cond_queue_enq s.1 pthread s.2
  | Deq => let '(_, cond, ths) := cond_queue_deq s.1 s.2 in Some (cond, ths)
  end.

Fixpoint run_queue_ops (ops : list queue_op)
    (s : struct_pthread_cond * gmap nat struct_pthread)
  : option (struct_pthread_cond * gmap nat struct_pthread) :=
  match ops with
  | [] => Some s
  | op :: ops' => s' ← run_queue_op op s; run_queue_ops ops' s'
  end.

(** The threads [cond_queue_deq] returns when called [n] times in a row. *)
Fixpoint dequeue_order (n : nat) (cond : struct_pthread_cond)
    (ths : gmap nat struct_pthread) : list (option nat) :=
  match n with
  | O => []
  | S n' => let '(pthread, cond', ths') := cond_queue_deq cond ths in
            pthread :: dequeue_order n' cond' ths'
  end.

(** Four runnable threads at addresses 1 to 4 with priorities 5, 1, 5, 3 and
    an initialised condition variable nobody waits on. *)
Definition thread_with_priority (p : Z) : struct_pthread :=
  Pthread PS_RUNNING 0 p 0 0 (Timespec 0 0) None.

Definition four_threads : gmap nat struct_pthread :=
  <[1%nat := thread_with_priority 5]>
    (<[2%nat := thread_with_priority 1]>
       (<[3%nat := thread_with_priority 5]>
          (<[4%nat := thread_with_priority 3]> ∅))).

Definition fresh_cond : struct_pthread_cond :=
  PthreadCond [] COND_FLAGS_INITED COND_TYPE_FAST None.

(** The world [w] after the calls [evs] were recorded and nothing else
    changed. *)
Definition emitted (w : world) (evs : list event) : world :=
  World (conds w) (mutexes w) (threads w) (errno w) (trace w ++ evs).

(** A well-formed deadline: seconds not negative, nanoseconds below 10^9. *)
Definition valid_deadline (ts : timespec) : Prop :=
  0 ≤ tv_sec ts ∧ 0 ≤ tv_nsec ts < 1000000000.

(** The variable carries the flag [pthread_cond_init] sets. *)
Definition cond_inited (c : struct_pthread_cond) : Prop :=
  Z.land (c_flags c) COND_FLAGS_INITED ≠ 0.

(** The mutex argument of a wait is rejected: the pointer is null, or the
    variable is bound to a mutex other than the one read through it. *)
Definition mutex_mismatch (w : world) (c : struct_pthread_cond)
    (mutex : option nat) : Prop :=
  mutex = None
  ∨ ∃ a, mutex = Some a ∧ c_mutex c ≠ None ∧ c_mutex c ≠ mutexes w !! a.

(** What [pthread_cond_broadcast] does to one queued thread, and to the
    thread table over the whole queue, head first. *)
Definition wake_one (ths : gmap nat struct_pthread) (pthread : nat)
  : gmap nat struct_pthread :=
  let ths' := clear_in_condq ths pthread in
  if eligible ths' pthread then PTHREAD_NEW_STATE ths' pthread PS_RUNNING else ths'.

Definition wake_all (ths : gmap nat struct_pthread) (q : list nat)
  : gmap nat struct_pthread :=
  foldl wake_one ths q.

(** Worlds used to run the entry points on concrete inputs: the four
    threads above, mutex handles at addresses 9 and 10 holding the mutexes
    77 and 88, and at address 7 an initialised condition variable
    ([idle_world]), or a zero-valued placeholder ([placeholder_world]), or a
    variable on which thread 1 waits with mutex 77 ([waiting_world]). *)
Definition two_mutexes : gmap nat nat := <[9%nat := 77%nat]> (<[10%nat := 88%nat]> ∅).

Definition idle_world : world :=
  World (<[7%nat := fresh_cond]> ∅) two_mutexes four_threads 0 [].

Definition placeholder_world : world :=
  World ∅ two_mutexes four_threads 0 [].

Definition waiting_world : world :=
  World (<[7%nat := PthreadCond [1%nat] COND_FLAGS_INITED COND_TYPE_FAST (Some 77%nat)]> ∅)
        two_mutexes
        (<[1%nat := Pthread PS_COND_WAIT PTHREAD_FLAGS_IN_CONDQ 5 0 0
                            (Timespec 100 0) None]> four_threads)
        0 [].

(** [waiting_world] once the scheduler has marked thread 1 as timed out and
    made it runnable again. *)
Definition timed_out_world : world :=
  World (conds waiting_world) two_mutexes
        (<[1%nat := Pthread PS_RUNNING PTHREAD_FLAGS_IN_CONDQ 5 1 0
                            (Timespec 100 0) None]> four_threads)
        0 [].

(** The invariant tying [c_mutex] to the queue: the variable is bound to a
    mutex exactly when some thread is queued. *)
Definition cv_invariant (c : struct_pthread_cond) : Prop :=
  c_mutex c = None ↔ c_queue c = [].

(** What is assumed of the mutex layer, which is outside this file: it
    refuses to unlock through a handle that holds NULL. *)
Definition unlock_refuses_null (w : world) (mutex : option nat) (unlock_rv : Z)
  : Prop :=
  ∀ a, mutex = Some a → mutexes w !! a = None → unlock_rv ≠ 0.

(** One step of the system around the condition variable at [l]: some
    thread runs one of the entry points (a wait up to the point where it
    blocks or returns, the rest of a wait once its thread is rescheduled, a
    signal, a broadcast) to completion, or the environment (scheduler,
    mutex layer, code working on other condition variables) changes
    anything but the structure behind the handle at [l].  A run that ends
    in [Fault] or [Stale] is no step. *)
Inductive cv_step (l : nat) : world → world → Prop :=
  | step_wait thread_run mutex malloc unlock_rv r w w' :
      unlock_refuses_null w mutex unlock_rv →
      pthread_cond_wait_enter thread_run (Some l) mutex malloc unlock_rv w
      = Done r w' →
      cv_step l w w'
  | step_wait_resume thread_run mutex lock_rv r w w' :
      pthread_cond_wait_resume thread_run l mutex lock_rv w = Done r w' →
      cv_step l w w'
  | step_timedwait thread_run mutex abstime malloc unlock_rv r w w' :
      unlock_refuses_null w mutex unlock_rv →
      pthread_cond_timedwait_enter thread_run (Some l) mutex abstime malloc
        unlock_rv w
      = Done r w' →
      cv_step l w w'
  | step_timedwait_resume thread_run mutex lock_rv r w w' :
      pthread_cond_timedwait_resume thread_run l mutex lock_rv w = Done r w' →
      cv_step l w w'
  | step_signal r w w' :
      pthread_cond_signal (Some l) w = Done r w' →
      cv_step l w w'
  | step_broadcast r w w' :
      pthread_cond_broadcast (Some l) w = Done r w' →
      cv_step l w w'
  | step_environment w w' :
      conds w' !! l = conds w !! l →
      cv_step l w w'.

(** The condition variable at [l] is live, initialised and satisfies the
    invariant. *)
Definition cv_inv_at (l : nat) (w : world) : Prop :=
  ∃ c, conds w !! l = Some c ∧ cond_inited c ∧ cv_invariant c.

(** A piece of code that keeps [P] whenever it runs to completion. *)
Definition preserves {A : Type} (P : world → Prop) (m : M A) : Prop :=
  ∀ w a w', P w → m w = Done a w' → P w'.

(** The world a run ends in ([w0] if it does not end). *)
Definition world_after {A : Type} (r : result A) (w0 : world) : world :=
  match r with
  | Done _ w => w
  | _ => w0
  end.

(** The queue of the variable at [l] (empty behind a null handle). *)
Definition queue_at (l : nat) (w : world) : list nat :=
  from_option c_queue [] (conds w !! l).

(** The queue at [l] after each of [n] successive signals. *)
Fixpoint queues_under_signal (n : nat) (l : nat) (w : world) : list (list nat) :=
  match n with
  | O => []
  | S n' =>
      let w' := world_after (pthread_cond_signal (Some l) w) w in
      queue_at l w' :: queues_under_signal n' l w'
  end.

(** [idle_world] after threads 1, 2, 3 and 4 (priorities 5, 1, 5, 3) have
    called [pthread_cond_wait] in that order with the mutex at 9, each
    unlock succeeding. *)
Definition four_waiters_world : world :=
  foldl (λ w t, world_after
                  (pthread_cond_wait_enter t (Some 7%nat) (Some 9%nat) None 0 w) w)
        idle_world [1; 2; 3; 4]%nat.

(** Threads 1 and 3 wait with mutex 77 on the variable at 7. *)
Definition two_waiters_world : world :=
  World (<[7%nat := PthreadCond [1; 3]%nat COND_FLAGS_INITED COND_TYPE_FAST
                                (Some 77%nat)]> ∅)
        two_mutexes
        (<[1%nat := Pthread PS_COND_WAIT PTHREAD_FLAGS_IN_CONDQ 5 0 0
                            (Timespec (-1) 0) None]>
           (<[3%nat := Pthread PS_COND_WAIT PTHREAD_FLAGS_IN_CONDQ 5 0 0
                               (Timespec (-1) 0) None]> four_threads))
        0 [].

(** The representation invariant of a wait queue: no thread is linked twice
    and every linked thread carries the membership flag. *)
Definition queue_wf (c : struct_pthread_cond) (ths : gmap nat struct_pthread)
  : Prop :=
  NoDup (c_queue c) ∧ ∀ t, t ∈ c_queue c → in_condq ths t = true.

(** Weighted count of the recorded calls: the sum of the weights of the
    events of a trace. *)
Definition count_events (wt : event → Z) (evs : list event) : Z :=
  foldr (λ e n, wt e + n) 0 evs.

(** Entered minus left cancellation points. *)
Definition cancellation_weight (e : event) : Z :=
  match e with
  | EnterCancellationPoint => 1
  | LeaveCancellationPoint => -1
  | _ => 0
  end.

(** Structure locks taken minus structure locks released, by [_SPINUNLOCK]
    or by the scheduler when it blocks the caller. *)
Definition guard_weight (e : event) : Z :=
  match e with
  | SPINLOCK _ => 1
  | SPINUNLOCK _ => -1
  | SchedStateUnlock _ _ => -1
  | _ => 0
  end.

(** Signal deferrals minus their ends. *)
Definition defer_weight (e : event) : Z :=
  match e with
  | SigDefer => 1
  | SigUndefer => -1
  | _ => 0
  end.

Definition unlock_weight (e : event) : Z :=
  match e with
  | MutexCvUnlock _ => 1
  | _ => 0
  end.

Definition lock_weight (e : event) : Z :=
  match e with
  | MutexCvLock _ => 1
  | _ => 0
  end.

(** Whenever [m] runs to completion, the calls it recorded weigh [f] of its
    result. *)
Definition weighs {A : Type} (wt : event → Z) (m : M A) (f : A → Z) : Prop :=
  ∀ w a w', m w = Done a w' →
    ∃ evs, trace w' = trace w ++ evs ∧ count_events wt evs = f a.

(** The structure of a thread that a wait has just linked into the queue:
    membership flag set, [timeout] and [interrupted] reset, wake-up time
    [wk], the rest as in [s]. *)
Definition queued_thread (s : struct_pthread) (wk : timespec) : struct_pthread :=
  Pthread (state s) (Z.lor (flags s) PTHREAD_FLAGS_IN_CONDQ) (active_priority s)
          0 0 wk (continuation s).

(** The wake-up time [pthread_cond_wait] leaves: [tv_sec] is -1, [tv_nsec] is
    not written. *)
Definition no_deadline (s : struct_pthread) : timespec :=
  Timespec (-1) (tv_nsec (wakeup_time s)).

(** The call of the running thread's continuation, made when it has one. *)
Definition continuation_call (ths : gmap nat struct_pthread) (thread_run : nat)
  : list event :=
  match continuation (deref ths thread_run) with
  | Some fn => [Continuation fn thread_run]
  | None => []
  end.

(** [idle_world] with a variable of the type the switch does not know. *)
Definition unknown_type_world : world :=
  World (<[7%nat := PthreadCond [] COND_FLAGS_INITED COND_TYPE_MAX None]> ∅)
        two_mutexes four_threads 0 [].

(** The structure a wait works on once its lazy queue initialisation has
    run: a variable that lacks the flag gets an empty queue and the flag. *)
Definition statically_initialised (c : struct_pthread_cond) : struct_pthread_cond :=
  if Z.land (c_flags c) COND_FLAGS_INITED =? 0
  then set_c_flags (Z.lor (c_flags c) COND_FLAGS_INITED) (set_c_queue [] c)
  else c.

(** Threads 1, 3 and 4 (priorities 5, 5 and 3) wait with mutex 77 on the
    variable at 7, in that order of the queue; [s3] is the structure of
    thread 3. *)
Definition three_waiters_world (s3 : struct_pthread) : world :=
  World (<[7%nat := PthreadCond [1; 3; 4]%nat COND_FLAGS_INITED COND_TYPE_FAST
                                (Some 77%nat)]> ∅)
        two_mutexes
        (<[1%nat := Pthread PS_COND_WAIT PTHREAD_FLAGS_IN_CONDQ 5 0 0
                            (Timespec (-1) 0) None]>
           (<[3%nat := s3]>
              (<[4%nat := Pthread PS_COND_WAIT PTHREAD_FLAGS_IN_CONDQ 3 0 0
                                  (Timespec (-1) 0) None]> four_threads)))
        0 [].

(** Thread 3 of the three waiters, made runnable again by the scheduler:
    after its deadline passed, and after it was interrupted (it has the
    continuation 42). *)
Definition timed_out_waiter : struct_pthread :=
  Pthread PS_RUNNING PTHREAD_FLAGS_IN_CONDQ 5 1 0 (Timespec 100 0) None.

Definition interrupted_waiter : struct_pthread :=
  Pthread PS_RUNNING PTHREAD_FLAGS_IN_CONDQ 5 0 1 (Timespec 100 0) (Some 42%nat).

(** * Properties *)

(** ** Flag masks *)

Lemma mask_clear_test (f m : Z) : Z.land (Z.land f (Z.lnot m)) m = 0.
Proof.
  rewrite <- Z.land_assoc, (Z.land_comm (Z.lnot m) m), Z.land_lnot_diag.
  apply Z.land_0_r.
Qed.

Lemma mask_set_test (f m : Z) : Z.land (Z.lor f m) m = m.
Proof.
  rewrite Z.land_lor_distr_l, Z.land_diag.
  apply Z.bits_inj'; intros n Hn.
  rewrite Z.lor_spec, Z.land_spec. by destruct (Z.testbit m n), (Z.testbit f n).
Qed.

Lemma mask_clear_twice (f m : Z) :
  Z.land (Z.land f (Z.lnot m)) (Z.lnot m) = Z.land f (Z.lnot m).
Proof. rewrite <- Z.land_assoc. by rewrite Z.land_diag. Qed.

(** ** The thread table *)

Section thread_table.
Implicit Types (ths : gmap nat struct_pthread) (t x : nat).

Lemma unlinked_twice s : unlinked (unlinked s) = unlinked s.
Proof. unfold unlinked, set_flags; simpl. by rewrite mask_clear_twice. Qed.

Lemma deref_insert ths t s : deref (<[t := s]> ths) t = s.
Proof. unfold deref. by rewrite lookup_total_insert_eq. Qed.

Lemma deref_insert_ne ths t x s : t ≠ x → deref (<[t := s]> ths) x = deref ths x.
Proof. intros. unfold deref. by rewrite lookup_total_insert_ne. Qed.

Lemma deref_clear ths t : deref (clear_in_condq ths t) t = unlinked (deref ths t).
Proof. apply deref_insert. Qed.

Lemma deref_clear_ne ths t x : t ≠ x → deref (clear_in_condq ths t) x = deref ths x.
Proof. apply deref_insert_ne. Qed.

Lemma deref_clear_cases ths t x :
  deref (clear_in_condq ths t) x
  = if bool_decide (x = t) then unlinked (deref ths x) else deref ths x.
Proof.
  case_bool_decide as E.
  - subst. apply deref_clear.
  - apply deref_clear_ne. congruence.
Qed.

Lemma in_condq_clear ths t : in_condq (clear_in_condq ths t) t = false.
Proof.
  unfold in_condq. rewrite deref_clear. simpl.
  by rewrite mask_clear_test.
Qed.

Lemma in_condq_mark ths t : in_condq (mark_in_condq ths t) t = true.
Proof.
  unfold in_condq, mark_in_condq. rewrite deref_insert. simpl.
  by rewrite mask_set_test.
Qed.

Lemma in_condq_unlinked ths t :
  Z.land (flags (unlinked (deref ths t))) PTHREAD_FLAGS_IN_CONDQ = 0.
Proof. simpl. apply mask_clear_test. Qed.

Lemma eligible_clear ths t x : eligible (clear_in_condq ths t) x = eligible ths x.
Proof.
  unfold eligible. rewrite deref_clear_cases. by case_bool_decide.
Qed.

Lemma priority_mark ths t x :
  active_priority (deref (mark_in_condq ths t) x) = active_priority (deref ths x).
Proof.
  unfold mark_in_condq. destruct (decide (t = x)) as [->|].
  - by rewrite deref_insert.
  - by rewrite deref_insert_ne.
Qed.

(** Once the membership flags of the threads of [l] were cleared, one after
    the other, these threads are [unlinked] and no other thread changed. *)
Lemma clear_unlinked_table ths l x :
  deref (foldl clear_in_condq ths l) x
  = if bool_decide (x ∈ l) then unlinked (deref ths x) else deref ths x.
Proof.
  revert ths. induction l as [|t l IH]; intros ths; simpl.
  - done.
  - rewrite IH, !deref_clear_cases.
    destruct (decide (x = t)) as [->|Hne].
    + rewrite (bool_decide_eq_true_2 (t = t)) by done.
      rewrite (bool_decide_eq_true_2 (t ∈ t :: l)) by apply list_elem_of_here.
      case_bool_decide; [apply unlinked_twice|done].
    + rewrite (bool_decide_eq_false_2 (x = t)) by done.
      apply (f_equal (λ b : bool, if b then _ else _)).
      apply bool_decide_ext. rewrite elem_of_cons. tauto.
Qed.
End thread_table.

(** ** The tail queue *)

Lemma TAILQ_REMOVE_head (q : list nat) (elm : nat) :
  TAILQ_REMOVE (elm :: q) elm = Some q.
Proof. simpl. by rewrite decide_True. Qed.

Lemma TAILQ_REMOVE_middle (l1 l2 : list nat) (t : nat) :
  t ∉ l1 → TAILQ_REMOVE (l1 ++ t :: l2) t = Some (l1 ++ l2).
Proof.
  induction l1 as [|x l1 IH]; simpl; intros Hn.
  - by rewrite decide_True.
  - apply not_elem_of_cons in Hn as [Hne Hn].
    rewrite decide_False by done. by rewrite IH.
Qed.

(** A removal that the list describes takes out the first (in a queue
    without repetition, the only) occurrence and keeps the rest in order. *)
Lemma TAILQ_REMOVE_split (q q' : list nat) (elm : nat) :
  TAILQ_REMOVE q elm = Some q' →
  ∃ l1 l2, q = l1 ++ elm :: l2 ∧ (elm ∉ l1) ∧ q' = l1 ++ l2.
Proof.
  revert q'. induction q as [|x q IH]; intros q'; simpl; [done|].
  case_decide as E.
  - intros [= <-]. subst x. exists [], q. split; [done|]. split; [|done].
    apply not_elem_of_nil.
  - destruct (TAILQ_REMOVE q elm) as [q1|] eqn:Hq; [|done].
    intros [= <-]. destruct (IH q1 eq_refl) as (l1 & l2 & -> & Hn & ->).
    exists (x :: l1), l2. split; [done|]. split; [|done].
    apply not_elem_of_cons. split; [congruence|done].
Qed.

(** The list describes the removal exactly of the elements it holds. *)
Lemma TAILQ_REMOVE_is_Some (q : list nat) (elm : nat) :
  is_Some (TAILQ_REMOVE q elm) ↔ elm ∈ q.
Proof.
  split.
  - intros [q' Hq]. apply TAILQ_REMOVE_split in Hq as (l1 & l2 & -> & _ & _).
    apply elem_of_app. right. apply list_elem_of_here.
  - intros Hin. apply list_elem_of_split_l in Hin as (l1 & l2 & -> & Hn).
    rewrite TAILQ_REMOVE_middle by done. by eexists.
Qed.

Lemma TAILQ_REMOVE_None (q : list nat) (elm : nat) :
  TAILQ_REMOVE q elm = None ↔ elm ∉ q.
Proof.
  rewrite <- TAILQ_REMOVE_is_Some, <- eq_None_not_Some. done.
Qed.

(** ** Dequeue *)

Lemma cond_queue_deq_loop_spec (q : list nat) (ths : gmap nat struct_pthread) :
  ∃ skipped : list nat,
    let '(pthread, q', ths') := cond_queue_deq_loop q ths in
    let popped := skipped ++ from_option (λ t, [t]) [] pthread in
    q = popped ++ q'
    ∧ Forall (λ t, eligible ths t = false) skipped
    ∧ (∀ t, pthread = Some t → eligible ths t = true)
    ∧ (pthread = None → q' = [])
    ∧ ths' = foldl clear_in_condq ths popped.
Proof.
  revert ths. induction q as [|t rest IH]; intros ths; simpl.
  - exists []. simpl. repeat split; auto. congruence.
  - destruct (eligible (clear_in_condq ths t) t) eqn:E.
    + exists []. simpl. rewrite eligible_clear in E.
      repeat split; auto; congruence.
    + specialize (IH (clear_in_condq ths t)).
      destruct IH as [skipped IH].
      destruct (cond_queue_deq_loop rest (clear_in_condq ths t)) as [[r q'] ths'].
      exists (t :: skipped). simpl in *.
      destruct IH as (Hq & Hs & Hr & Hn & Ht).
      rewrite eligible_clear in E.
      repeat split; auto.
      * by f_equal.
      * constructor; [done|].
        eapply Forall_impl; [exact Hs|].
        intros x Hx; simpl in *. by rewrite eligible_clear in Hx.
      * intros x Hx. rewrite <- (eligible_clear ths t). by apply Hr.
Qed.


(** ** Removal *)

Lemma cond_queue_remove_unflagged cond pthread ths :
  in_condq ths pthread = false → cond_queue_remove cond pthread ths = Some (cond, ths).
Proof. unfold cond_queue_remove. by intros ->. Qed.

(** The removal of a thread that carries the flag and is linked: the first
    occurrence is taken out, the rest of the queue and of the structure
    stays, and only the flag of that thread is cleared. *)
Lemma cond_queue_remove_linked cond pthread ths cond1 ths1 :
  in_condq ths pthread = true →
  cond_queue_remove cond pthread ths = Some (cond1, ths1) →
  ∃ l1 l2, c_queue cond = l1 ++ pthread :: l2 ∧ (pthread ∉ l1)
           ∧ cond1 = set_c_queue (l1 ++ l2) cond
           ∧ ths1 = clear_in_condq ths pthread.
Proof.
  unfold cond_queue_remove. intros ->.
  destruct (TAILQ_REMOVE (c_queue cond) pthread) as [q|] eqn:Hq; [|done].
  intros [= <- <-].
  apply TAILQ_REMOVE_split in Hq as (l1 & l2 & Hq & Hn & ->). by exists l1, l2.
Qed.

Lemma cond_queue_remove_middle cond pthread ths l1 l2 :
  in_condq ths pthread = true → c_queue cond = l1 ++ pthread :: l2 → pthread ∉ l1 →
  cond_queue_remove cond pthread ths
  = Some (set_c_queue (l1 ++ l2) cond, clear_in_condq ths pthread).
Proof.
  intros Hf Hq Hn. unfold cond_queue_remove.
  by rewrite Hf, Hq, TAILQ_REMOVE_middle.
Qed.

(** The list describes every removal but that of a thread which carries the
    flag without being linked. *)
Lemma cond_queue_remove_is_Some cond pthread ths :
  is_Some (cond_queue_remove cond pthread ths)
  ↔ (in_condq ths pthread = true → pthread ∈ c_queue cond).
Proof.
  unfold cond_queue_remove. destruct (in_condq ths pthread).
  - rewrite <- TAILQ_REMOVE_is_Some.
    destruct (TAILQ_REMOVE (c_queue cond) pthread); simpl.
    + split; [by eexists|by eexists].
    + split; [by intros [? ?]|]. intros H. by destruct (H eq_refl).
  - split; [done|by eexists].
Qed.

Lemma cond_queue_remove_None cond pthread ths :
  cond_queue_remove cond pthread ths = None
  ↔ in_condq ths pthread = true ∧ pthread ∉ c_queue cond.
Proof.
  unfold cond_queue_remove. destruct (in_condq ths pthread).
  - rewrite <- TAILQ_REMOVE_None.
    destruct (TAILQ_REMOVE (c_queue cond) pthread); simpl.
    + split; [done|]. by intros [_ ?].
    + by split.
  - split; [done|]. by intros [? _].
Qed.

Lemma cond_queue_remove_clears cond pthread ths cond1 ths1 :
  cond_queue_remove cond pthread ths = Some (cond1, ths1) →
  in_condq ths1 pthread = false.
Proof.
  unfold cond_queue_remove. destruct (in_condq ths pthread) eqn:E.
  - destruct (TAILQ_REMOVE _ _); [|done]. intros [= <- <-]. apply in_condq_clear.
  - by intros [= <- <-].
Qed.

Lemma cond_queue_remove_twice cond pthread ths cond1 ths1 :
  cond_queue_remove cond pthread ths = Some (cond1, ths1) →
  cond_queue_remove cond1 pthread ths1 = Some (cond1, ths1).
Proof.
  intros H. apply cond_queue_remove_unflagged.
  by eapply cond_queue_remove_clears.
Qed.

Lemma in_condq_ext ths ths' t :
  deref ths' t = deref ths t → in_condq ths' t = in_condq ths t.
Proof. unfold in_condq. by intros ->. Qed.

(** C10.  [cond_queue_remove] of a thread whose membership flag is unset
    changes nothing, so a second removal of the same thread is a no-op: at
    the level of the queue, and at the level of the cleanup sequence the
    callers run (removal followed by the check that clears [c_mutex] when no
    waiter is left), where running it twice leaves the world that running it
    once leaves.  The first removal is that of the list in every case but
    one, the thread that carries the flag without being linked in the
    queue. *)
Theorem cond_queue_remove_idempotent
    (cond : struct_pthread_cond) (pthread : nat) (ths : gmap nat struct_pthread) :
  (in_condq ths pthread = false →
   cond_queue_remove cond pthread ths = Some (cond, ths))
  ∧ (∀ cond1 ths1,
       cond_queue_remove cond pthread ths = Some (cond1, ths1) →
       cond_queue_remove cond1 pthread ths1 = Some (cond1, ths1))
  ∧ (∀ (l : nat) (w : world),
       (remove_self l pthread;; remove_self l pthread) w = remove_self l pthread w)
  ∧ (is_Some (cond_queue_remove cond pthread ths)
     ↔ (in_condq ths pthread = true → pthread ∈ c_queue cond)).
Proof.
  split; [apply cond_queue_remove_unflagged|].
  split; [apply cond_queue_remove_twice|].
  split; [|apply cond_queue_remove_is_Some].
  intros l w.
  unfold remove_self, mbind, M_bind, get_cond, get_threads, put_threads, put_cond.
  destruct (conds w !! l) as [c|] eqn:Hc; [|done].
  destruct (cond_queue_remove c pthread (threads w)) as [[c1 ths1]|] eqn:H1;
    [|done].
  cbn. rewrite lookup_insert_eq. cbn.
  rewrite (cond_queue_remove_unflagged (check_no_more_waiters c1)).
  - cbn. rewrite insert_insert_eq.
    do 3 f_equal. unfold check_no_more_waiters.
    by destruct (TAILQ_FIRST (c_queue c1)) eqn:E; cbn; rewrite ?E.
  - by eapply cond_queue_remove_clears.
Qed.

(** ** Enqueue *)

Section enqueue.
Variable ths : gmap nat struct_pthread.
Variable pthread : nat.

Lemma priority_ordered_last (q : list nat) (tid x : nat) :
  priority_ordered ths q → last q = Some tid → x ∈ q →
  priority ths tid ≤ priority ths x.
Proof.
  intros Hs Hl Hx. apply last_Some in Hl as [q' ->].
  apply elem_of_app in Hx as [Hx|Hx].
  - apply (StronglySorted_app_1_elem_of
             (λ a b, priority ths b ≤ priority ths a) q' [tid] x tid Hs Hx).
    apply list_elem_of_singleton. done.
  - apply list_elem_of_singleton in Hx as ->. lia.
Qed.

(** The scan stops: some queued thread has a lower priority than the new
    one.  It links the new thread right in front of the first such thread. *)
Lemma cond_queue_enq_scan_spec (q : list nat) :
  priority_ordered ths q →
  (∃ x, x ∈ q ∧ priority ths x < priority ths pthread) →
  ∃ l1 l2,
    cond_queue_enq_scan ths pthread q = Some (l1 ++ pthread :: l2)
    ∧ q = l1 ++ l2
    ∧ Forall (λ x, priority ths pthread ≤ priority ths x) l1
    ∧ Forall (λ x, priority ths x < priority ths pthread) l2.
Proof.
  induction q as [|tid rest IH]; intros Hs [x [Hx Hlt]].
  - by apply elem_of_nil in Hx.
  - simpl. apply StronglySorted_cons in Hs as [Hall Hs].
    fold (priority ths pthread). fold (priority ths tid).
    destruct (Z.leb_spec (priority ths pthread) (priority ths tid)) as [Hle|Hgt].
    + destruct IH as (l1 & l2 & Hscan & Hq & H1 & H2); [done| |].
      { exists x. split; [|done].
        apply elem_of_cons in Hx as [->|Hx]; [lia|done]. }
      exists (tid :: l1), l2. rewrite Hscan. simpl.
      repeat split; [by f_equal|by constructor|done].
    + exists [], (tid :: rest). simpl. repeat split; [constructor|].
      constructor; [done|].
      eapply Forall_impl; [exact Hall|]. intros y Hy; simpl in *. lia.
Qed.

(** On an ordered queue [cond_queue_enq] reads through no null pointer and
    links the thread after every queued thread whose priority is at least
    its own and before every queued thread of lower priority. *)
Lemma cond_queue_enq_spec (cond : struct_pthread_cond) :
  priority_ordered ths (c_queue cond) →
  ∃ l1 l2,
    cond_queue_enq cond pthread ths
    = Some (set_c_queue (l1 ++ pthread :: l2) cond, mark_in_condq ths pthread)
    ∧ c_queue cond = l1 ++ l2
    ∧ Forall (λ x, priority ths pthread ≤ priority ths x) l1
    ∧ Forall (λ x, priority ths x < priority ths pthread) l2.
Proof.
  intros Hs. unfold cond_queue_enq, TAILQ_LAST, TAILQ_INSERT_TAIL.
  destruct (last (c_queue cond)) as [tid|] eqn:Hl.
  - fold (priority ths pthread). fold (priority ths tid).
    destruct (Z.leb_spec (priority ths pthread) (priority ths tid)) as [Hle|Hgt].
    + exists (c_queue cond), []. simpl. rewrite app_nil_r.
      repeat split; [|constructor].
      apply Forall_forall. intros x Hx.
      pose proof (priority_ordered_last _ _ _ Hs Hl Hx). lia.
    + destruct (cond_queue_enq_scan_spec (c_queue cond)) as (l1 & l2 & -> & ? & ? & ?);
        [done| |].
      { exists tid. split; [|done]. by apply last_Some_elem_of. }
      exists l1, l2. by simpl.
  - apply last_None in Hl. exists [], []. rewrite Hl. simpl.
    repeat split; constructor.
Qed.

Lemma priority_ordered_insert (l1 l2 : list nat) :
  priority_ordered ths (l1 ++ l2) →
  Forall (λ x, priority ths pthread ≤ priority ths x) l1 →
  Forall (λ x, priority ths x < priority ths pthread) l2 →
  priority_ordered ths (l1 ++ pthread :: l2).
Proof.
  unfold priority_ordered. rewrite !StronglySorted_app, StronglySorted_cons.
  intros (Hx & H1 & H2) Hl1 Hl2. rewrite !Forall_forall in *.
  repeat split; auto.
  - intros x1 Hx1 x2 Hx2. apply elem_of_cons in Hx2 as [->|Hx2]; auto.
  - intros y Hy. apply Hl2 in Hy. lia.
Qed.
End enqueue.

(** Ordered or not, the queue makes [cond_queue_enq] read through no null
    pointer: the scan is entered only when the thread at the tail has a
    lower priority than the new one, and stops there at the latest. *)
Lemma cond_queue_enq_scan_total ths pthread (q : list nat) :
  (∃ x, x ∈ q ∧ priority ths x < priority ths pthread) →
  is_Some (cond_queue_enq_scan ths pthread q).
Proof.
  induction q as [|tid rest IH]; intros [x [Hx Hlt]].
  - by apply elem_of_nil in Hx.
  - simpl. fold (priority ths pthread). fold (priority ths tid).
    destruct (Z.leb_spec (priority ths pthread) (priority ths tid)) as [Hle|Hgt];
      [|done].
    destruct IH as [q' ->]; [|done].
    exists x. split; [|done].
    apply elem_of_cons in Hx as [->|Hx]; [lia|done].
Qed.

Lemma cond_queue_enq_total cond pthread ths :
  is_Some (cond_queue_enq cond pthread ths).
Proof.
  unfold cond_queue_enq, TAILQ_LAST.
  destruct (last (c_queue cond)) as [tid|] eqn:Hl; [|done].
  fold (priority ths pthread). fold (priority ths tid).
  destruct (Z.leb_spec (priority ths pthread) (priority ths tid)) as [Hle|Hgt];
    [done|].
  destruct (cond_queue_enq_scan_total ths pthread (c_queue cond)) as [q ->];
    [|done].
  exists tid. split; [|done]. by apply last_Some_elem_of.
Qed.

Lemma priority_ordered_ext (ths ths' : gmap nat struct_pthread) (q : list nat) :
  (∀ x, priority ths' x = priority ths x) →
  priority_ordered ths q → priority_ordered ths' q.
Proof.
  intros He. unfold priority_ordered.
  induction 1 as [|x l Hl IH Hx]; constructor; [done|].
  eapply Forall_impl; [exact Hx|]. intros y; simpl. by rewrite !He.
Qed.

Lemma cond_queue_enq_ordered cond pthread ths cond' ths' :
  priority_ordered ths (c_queue cond) →
  cond_queue_enq cond pthread ths = Some (cond', ths') →
  priority_ordered ths' (c_queue cond').
Proof.
  intros Hs He.
  destruct (cond_queue_enq_spec ths pthread cond Hs) as (l1 & l2 & E & Hq & H1 & H2).
  rewrite E in He. injection He as <- <-. simpl.
  apply (priority_ordered_ext ths); [intros x; apply priority_mark|].
  apply priority_ordered_insert; [by rewrite <- Hq|done|done].
Qed.

Lemma cond_queue_deq_ordered cond ths :
  priority_ordered ths (c_queue cond) →
  priority_ordered (cond_queue_deq cond ths).2 (c_queue (cond_queue_deq cond ths).1.2).
Proof.
  intros Hs. unfold cond_queue_deq.
  destruct (cond_queue_deq_loop_spec (c_queue cond) ths) as [skipped H].
  destruct (cond_queue_deq_loop (c_queue cond) ths) as [[r q'] ths']. simpl in *.
  destruct H as (Hq & _ & _ & _ & Ht).
  apply (priority_ordered_ext ths).
  - intros x. unfold priority. rewrite Ht, clear_unlinked_table.
    by case_bool_decide.
  - rewrite Hq in Hs. by apply StronglySorted_app_1_r in Hs.
Qed.

Lemma run_queue_ops_ordered (ops : list queue_op) cond ths :
  priority_ordered ths (c_queue cond) →
  ∃ cond' ths', run_queue_ops ops (cond, ths) = Some (cond', ths')
                ∧ priority_ordered ths' (c_queue cond').
Proof.
  revert cond ths. induction ops as [|op ops IH]; intros cond ths Hs.
  - by exists cond, ths.
  - destruct op as [t|]; simpl.
    + destruct (cond_queue_enq_spec ths t cond Hs) as (l1 & l2 & E & _).
      pose proof (cond_queue_enq_ordered _ _ _ _ _ Hs E) as Hs'.
      rewrite E. simpl. by apply IH.
    + pose proof (cond_queue_deq_ordered cond ths Hs) as Hs'.
      destruct (cond_queue_deq cond ths) as [[r c'] ths']. simpl in *.
      by apply IH.
Qed.

(** C1.  After every sequence of enqueues and dequeues on a queue that
    started empty, the queue is ordered by non-increasing priority, and the
    next enqueue completes and links the thread after every queued thread of
    priority greater than or equal to its own and before every queued
    thread of strictly lower priority (so arrival order is kept among equal
    priorities).  Threads 1, 2, 3, 4 of priorities 5, 1, 5, 3 enqueued in
    that order are dequeued first 5, second 5, 3, 1, that is 1, 3, 4, 2: by
    [cond_queue_deq] called four times, and by four calls of
    [pthread_cond_signal] after the four threads called
    [pthread_cond_wait]. *)
Theorem cond_queue_priority_fifo :
  (∀ (ops : list queue_op) (cond0 : struct_pthread_cond)
     (ths0 : gmap nat struct_pthread),
     c_queue cond0 = [] →
     ∃ cond ths,
       run_queue_ops ops (cond0, ths0) = Some (cond, ths)
       ∧ priority_ordered ths (c_queue cond)
       ∧ ∀ pthread : nat, ∃ l1 l2,
           cond_queue_enq cond pthread ths
           = Some (set_c_queue (l1 ++ pthread :: l2) cond, mark_in_condq ths pthread)
           ∧ c_queue cond = l1 ++ l2
           ∧ Forall (λ x, priority ths pthread ≤ priority ths x) l1
           ∧ Forall (λ x, priority ths x < priority ths pthread) l2)
  ∧ ((λ s, dequeue_order 4 s.1 s.2)
       <$> run_queue_ops [Enq 1; Enq 2; Enq 3; Enq 4]%nat (fresh_cond, four_threads))
    = Some [Some 1; Some 3; Some 4; Some 2]%nat
  ∧ queue_at 7 four_waiters_world = [1; 3; 4; 2]%nat
  ∧ queues_under_signal 4 7 four_waiters_world
    = [[3; 4; 2]; [4; 2]; [2]; []]%nat.
Proof.
  split; [|by vm_compute].
  intros ops cond0 ths0 H0.
  destruct (run_queue_ops_ordered ops cond0 ths0) as (cond & ths & Hrun & Hs).
  { rewrite H0. constructor. }
  exists cond, ths. repeat split; [done|done|].
  intros pthread. by apply cond_queue_enq_spec.
Qed.

Lemma cond_queue_priority_fifo_witness :
  ∃ cond ths,
    run_queue_ops [Enq 1; Enq 2; Deq; Enq 3; Enq 4]%nat (fresh_cond, four_threads)
    = Some (cond, ths)
    ∧ priority_ordered ths (c_queue cond)
    ∧ ∀ pthread : nat, ∃ l1 l2,
        cond_queue_enq cond pthread ths
        = Some (set_c_queue (l1 ++ pthread :: l2) cond, mark_in_condq ths pthread)
        ∧ c_queue cond = l1 ++ l2
        ∧ Forall (λ x, priority ths pthread ≤ priority ths x) l1
        ∧ Forall (λ x, priority ths x < priority ths pthread) l2.
Proof.
  apply (proj1 cond_queue_priority_fifo
           [Enq 1; Enq 2; Deq; Enq 3; Enq 4]%nat fresh_cond four_threads).
  reflexivity.
Defined.

(** ** Running the entry points *)

(** Unfolds the monad and the recording wrappers and computes. *)
Ltac run_m :=
  repeat (progress
    (unfold mbind, M_bind, mret, M_ret, _SPINUNLOCK, _SPINLOCK, _mutex_cv_lock,
       _mutex_cv_unlock, _thread_enter_cancellation_point,
       _thread_leave_cancellation_point, _thread_kern_sig_defer,
       _thread_kern_sig_undefer, _thread_kern_sched_state_unlock, wait_epilogue,
       emit, get_threads, put_threads, put_cond, load_mutex, load_handle,
       modify_thread, set_errno, emitted;
     cbn)).

Lemma emitted_emitted w evs evs' : emitted (emitted w evs) evs' = emitted w (evs ++ evs').
Proof. unfold emitted; simpl. by rewrite app_assoc. Qed.

Lemma emit_run e w : emit e w = Done () (emitted w [e]).
Proof. done. Qed.

Lemma init_static_queue_inited l w c :
  conds w !! l = Some c → cond_inited c → init_static_queue l w = Done () w.
Proof.
  intros Hc Hi. unfold init_static_queue, mbind, M_bind, get_cond. rewrite Hc.
  unfold cond_inited in Hi. apply Z.eqb_neq in Hi. by rewrite Hi.
Qed.

Lemma wait_epilogue_plain thread_run rval w :
  wait_epilogue thread_run 0 rval w
  = Done rval (emitted w [LeaveCancellationPoint; LeaveCancellationPoint]).
Proof.
  unfold wait_epilogue, mbind, M_bind, get_threads; cbn.
  unfold emitted; cbn. by rewrite <- app_assoc.
Qed.

Lemma unlock_and_fail_run l thread_run w :
  unlock_and_fail l thread_run w
  = Done (Returned EINVAL)
         (emitted w [SPINUNLOCK l; LeaveCancellationPoint; LeaveCancellationPoint]).
Proof.
  unfold unlock_and_fail, mbind, M_bind, _SPINUNLOCK. rewrite emit_run.
  rewrite wait_epilogue_plain. cbn. by rewrite emitted_emitted.
Qed.

Lemma pthread_cond_wait_enter_live thread_run l mutex malloc unlock_rv w c :
  conds w !! l = Some c → cond_inited c →
  pthread_cond_wait_enter thread_run (Some l) mutex malloc unlock_rv w
  = pthread_cond_wait_switch thread_run l mutex unlock_rv
      (emitted w [EnterCancellationPoint; EnterCancellationPoint; SPINLOCK l]).
Proof.
  intros Hc Hi. unfold pthread_cond_wait_enter.
  unfold mbind at 1 2 3, M_bind at 1 2 3, _thread_enter_cancellation_point at 1.
  rewrite emit_run. unfold load_handle. cbn [conds emitted]. rewrite Hc.
  unfold mret at 1, M_ret at 1.
  unfold mbind at 1 2 3, M_bind at 1 2 3,
    _thread_enter_cancellation_point, _SPINLOCK.
  rewrite !emit_run, !emitted_emitted. cbn [app].
  by rewrite (init_static_queue_inited l _ c).
Qed.

Lemma valid_deadline_test ts :
  valid_deadline ts →
  (tv_sec ts <? 0) || (tv_nsec ts <? 0) || (tv_nsec ts >=? 1000000000) = false.
Proof.
  intros [? [? ?]].
  rewrite !orb_false_iff, !Z.ltb_ge, Z.geb_leb, Z.leb_gt. lia.
Qed.

Lemma pthread_cond_timedwait_enter_live thread_run l mutex ts malloc unlock_rv w c :
  conds w !! l = Some c → cond_inited c → valid_deadline ts →
  pthread_cond_timedwait_enter thread_run (Some l) mutex (Some ts) malloc unlock_rv w
  = pthread_cond_timedwait_switch thread_run l mutex ts unlock_rv
      (emitted w [EnterCancellationPoint; EnterCancellationPoint; SPINLOCK l]).
Proof.
  intros Hc Hi Hv. unfold pthread_cond_timedwait_enter.
  unfold mbind at 1, M_bind at 1, _thread_enter_cancellation_point at 1.
  rewrite emit_run. cbv zeta. rewrite (valid_deadline_test ts Hv).
  unfold mbind at 1 2, M_bind at 1 2.
  unfold load_handle. cbn [conds emitted]. rewrite Hc.
  unfold mret at 1, M_ret at 1.
  unfold mbind at 1 2 3, M_bind at 1 2 3,
    _thread_enter_cancellation_point, _SPINLOCK.
  rewrite !emit_run, !emitted_emitted. cbn [app].
  by rewrite (init_static_queue_inited l _ c).
Qed.

(** ** Rejection of a null or mismatched mutex *)

Lemma pthread_cond_wait_switch_rejects thread_run l mutex unlock_rv w c :
  conds w !! l = Some c → mutex_mismatch w c mutex →
  pthread_cond_wait_switch thread_run l mutex unlock_rv w
  = unlock_and_fail l thread_run w.
Proof.
  intros Hc Hm. unfold pthread_cond_wait_switch.
  unfold mbind at 1, M_bind at 1, get_cond. rewrite Hc.
  destruct (c_type c); [|done].
  destruct Hm as [->|(a & -> & Hn & Hd)]; [done|].
  unfold mbind at 1, M_bind at 1, load_mutex.
  by rewrite !bool_decide_eq_true_2.
Qed.

Lemma pthread_cond_timedwait_switch_rejects thread_run l mutex ts unlock_rv w c :
  conds w !! l = Some c → mutex_mismatch w c mutex →
  pthread_cond_timedwait_switch thread_run l mutex ts unlock_rv w
  = unlock_and_fail l thread_run w.
Proof.
  intros Hc Hm. unfold pthread_cond_timedwait_switch.
  unfold mbind at 1, M_bind at 1, get_cond. rewrite Hc.
  destruct (c_type c); [|done].
  destruct Hm as [->|(a & -> & Hn & Hd)]; [done|].
  unfold mbind at 1, M_bind at 1, load_mutex.
  by rewrite !bool_decide_eq_true_2.
Qed.

(** The lazy queue initialisation on a live handle: a variable that carries
    the flag is left alone, one that lacks it gets an empty queue and the
    flag; [c_mutex] and [c_type] are not written. *)
Lemma statically_initialised_spec c :
  c_mutex (statically_initialised c) = c_mutex c
  ∧ c_type (statically_initialised c) = c_type c
  ∧ (cond_inited c → statically_initialised c = c)
  ∧ (¬ cond_inited c →
     c_queue (statically_initialised c) = []
     ∧ c_flags (statically_initialised c) = Z.lor (c_flags c) COND_FLAGS_INITED).
Proof.
  unfold statically_initialised, cond_inited.
  destruct (Z.eqb_spec (Z.land (c_flags c) COND_FLAGS_INITED) 0) as [E|E];
    by repeat split.
Qed.

Lemma init_static_queue_run l w c :
  conds w !! l = Some c →
  init_static_queue l w
  = Done () (World (<[l := statically_initialised c]> (conds w)) (mutexes w)
                   (threads w) (errno w) (trace w)).
Proof.
  intros Hc. unfold init_static_queue, statically_initialised, mbind, M_bind,
    get_cond.
  rewrite Hc. destruct (_ =? 0); [done|].
  unfold mret, M_ret. f_equal. destruct w; cbn in *. f_equal.
  symmetry. by apply insert_id.
Qed.

Lemma mutex_mismatch_ext w w' c c' mutex :
  mutexes w' = mutexes w → c_mutex c' = c_mutex c →
  mutex_mismatch w c mutex → mutex_mismatch w' c' mutex.
Proof. unfold mutex_mismatch. by intros -> ->. Qed.

Lemma pthread_cond_wait_enter_rejects thread_run l mutex malloc unlock_rv w c :
  conds w !! l = Some c → mutex_mismatch w c mutex →
  pthread_cond_wait_enter thread_run (Some l) mutex malloc unlock_rv w
  = Done (Returned EINVAL)
      (World (<[l := statically_initialised c]> (conds w)) (mutexes w) (threads w)
             (errno w)
             (trace w ++ [EnterCancellationPoint; EnterCancellationPoint;
                          SPINLOCK l; SPINUNLOCK l;
                          LeaveCancellationPoint; LeaveCancellationPoint])).
Proof.
  intros Hc Hm.
  unfold pthread_cond_wait_enter.
  unfold mbind at 1 2 3, M_bind at 1 2 3, _thread_enter_cancellation_point at 1.
  rewrite emit_run. unfold load_handle. cbn [conds emitted]. rewrite Hc.
  unfold mret at 1, M_ret at 1.
  unfold mbind at 1 2 3, M_bind at 1 2 3,
    _thread_enter_cancellation_point, _SPINLOCK.
  rewrite !emit_run, !emitted_emitted. cbn [app].
  rewrite (init_static_queue_run l _ c) by done.
  rewrite (pthread_cond_wait_switch_rejects _ _ _ _ _ (statically_initialised c));
    [|cbn [conds]; apply lookup_insert_eq
     |apply (mutex_mismatch_ext w _ c);
      [done|apply statically_initialised_spec|done]].
  rewrite unlock_and_fail_run. unfold emitted. cbn. by rewrite <- !app_assoc.
Qed.

Lemma pthread_cond_timedwait_enter_rejects
    thread_run l mutex ts malloc unlock_rv w c :
  conds w !! l = Some c → mutex_mismatch w c mutex → valid_deadline ts →
  pthread_cond_timedwait_enter thread_run (Some l) mutex (Some ts) malloc
    unlock_rv w
  = Done (Returned EINVAL)
      (World (<[l := statically_initialised c]> (conds w)) (mutexes w) (threads w)
             (errno w)
             (trace w ++ [EnterCancellationPoint; EnterCancellationPoint;
                          SPINLOCK l; SPINUNLOCK l;
                          LeaveCancellationPoint; LeaveCancellationPoint])).
Proof.
  intros Hc Hm Hv. unfold pthread_cond_timedwait_enter.
  unfold mbind at 1, M_bind at 1, _thread_enter_cancellation_point at 1.
  rewrite emit_run. cbv zeta. rewrite (valid_deadline_test ts Hv).
  unfold mbind at 1 2, M_bind at 1 2.
  unfold load_handle. cbn [conds emitted]. rewrite Hc.
  unfold mret at 1, M_ret at 1.
  unfold mbind at 1 2 3, M_bind at 1 2 3,
    _thread_enter_cancellation_point, _SPINLOCK.
  rewrite !emit_run, !emitted_emitted. cbn [app].
  rewrite (init_static_queue_run l _ c) by done.
  rewrite (pthread_cond_timedwait_switch_rejects _ _ _ _ _ _
             (statically_initialised c));
    [|cbn [conds]; apply lookup_insert_eq
     |apply (mutex_mismatch_ext w _ c);
      [done|apply statically_initialised_spec|done]].
  rewrite unlock_and_fail_run. unfold emitted. cbn. by rewrite <- !app_assoc.
Qed.

(** ** Timed wait: the timeout exit *)

Lemma remove_self_run l thread_run w c c' ths' :
  conds w !! l = Some c →
  cond_queue_remove c thread_run (threads w) = Some (c', ths') →
  remove_self l thread_run w
  = Done () (World (<[l := check_no_more_waiters c']> (conds w)) (mutexes w) ths'
                   (errno w) (trace w)).
Proof.
  intros Hc Hr. unfold remove_self, mbind, M_bind, get_cond, get_threads.
  by rewrite Hc, Hr.
Qed.

(** The cleanup completes exactly for a caller that is linked in the queue
    if it carries the membership flag. *)
Lemma cleanup_completes_iff_linked l thread_run w c :
  conds w !! l = Some c →
  (∃ w', remove_self l thread_run w = Done () w')
  ↔ (in_condq (threads w) thread_run = true → thread_run ∈ c_queue c).
Proof.
  intros Hc. rewrite <- cond_queue_remove_is_Some.
  unfold remove_self, mbind, M_bind, get_cond, get_threads. rewrite Hc.
  destruct (cond_queue_remove c thread_run (threads w)) as [[c1 ths1]|].
  - split; [by eexists|]. intros _. by eexists.
  - split; [by intros [? ?]|by intros [? ?]].
Qed.

(** What the cleanup leaves when the list describes it: the caller taken
    out of the queue, every other waiter queued in the order it was,
    [c_mutex] cleared exactly when nobody is left, the rest of the structure
    and every other thread untouched. *)
Lemma remove_self_frame l thread_run w c :
  conds w !! l = Some c →
  (in_condq (threads w) thread_run = true → thread_run ∈ c_queue c) →
  ∃ c' ths',
    remove_self l thread_run w
    = Done () (World (<[l := c']> (conds w)) (mutexes w) ths' (errno w) (trace w))
    ∧ (in_condq (threads w) thread_run = true →
       ∃ l1 l2, c_queue c = l1 ++ thread_run :: l2 ∧ (thread_run ∉ l1)
                ∧ c_queue c' = l1 ++ l2)
    ∧ (in_condq (threads w) thread_run = false → c_queue c' = c_queue c)
    ∧ (c_queue c' = [] → c_mutex c' = None)
    ∧ (c_queue c' ≠ [] → c_mutex c' = c_mutex c)
    ∧ c_flags c' = c_flags c ∧ c_type c' = c_type c
    ∧ in_condq ths' thread_run = false
    ∧ deref ths' thread_run
      = (if in_condq (threads w) thread_run
         then unlinked (deref (threads w) thread_run)
         else deref (threads w) thread_run)
    ∧ (∀ x, x ≠ thread_run → deref ths' x = deref (threads w) x).
Proof.
  intros Hc Hl.
  destruct (proj2 (cond_queue_remove_is_Some c thread_run (threads w)) Hl)
    as [[c1 ths1] Hr].
  exists (check_no_more_waiters c1), ths1.
  split; [by apply (remove_self_run _ _ _ c)|].
  assert (c_queue (check_no_more_waiters c1) = c_queue c1) as Hq.
  { unfold check_no_more_waiters. by destruct (TAILQ_FIRST (c_queue c1)). }
  assert (c_flags (check_no_more_waiters c1) = c_flags c1
          ∧ c_type (check_no_more_waiters c1) = c_type c1) as [Hfl Hty].
  { unfold check_no_more_waiters. by destruct (TAILQ_FIRST (c_queue c1)). }
  assert (c_mutex c1 = c_mutex c ∧ c_flags c1 = c_flags c ∧ c_type c1 = c_type c)
    as (Hm1 & Hf1 & Ht1).
  { unfold cond_queue_remove in Hr. destruct (in_condq _ _).
    - destruct (TAILQ_REMOVE _ _); [|done]. by injection Hr as <- <-.
    - by injection Hr as <- <-. }
  rewrite Hq, Hfl, Hty.
  split; [|split; [|split; [|split; [|split; [|split; [|split; [|split]]]]]]].
  - intros Hf.
    destruct (cond_queue_remove_linked _ _ _ _ _ Hf Hr) as (l1 & l2 & ? & ? & -> & _).
    by exists l1, l2.
  - intros Hf. rewrite (cond_queue_remove_unflagged _ _ _ Hf) in Hr.
    by injection Hr as <- <-.
  - intros E. unfold check_no_more_waiters. by rewrite E.
  - intros E. unfold check_no_more_waiters.
    by destruct (c_queue c1) eqn:E'.
  - done.
  - done.
  - by eapply cond_queue_remove_clears.
  - unfold cond_queue_remove in Hr. destruct (in_condq _ _).
    + destruct (TAILQ_REMOVE _ _); [|done]. injection Hr as <- <-.
      apply deref_clear.
    + by injection Hr as <- <-.
  - intros x Hx. unfold cond_queue_remove in Hr. destruct (in_condq _ _).
    + destruct (TAILQ_REMOVE _ _); [|done]. injection Hr as <- <-.
      by apply deref_clear_ne.
    + by injection Hr as <- <-.
Qed.


(** ** Broadcast *)

Lemma cond_queue_deq_nil c ths :
  c_queue c = [] → cond_queue_deq c ths = (None, set_c_queue [] c, ths).
Proof. unfold cond_queue_deq. by intros ->. Qed.

Lemma cond_queue_deq_cons_eligible c t rest ths :
  c_queue c = t :: rest → eligible ths t = true →
  cond_queue_deq c ths = (Some t, set_c_queue rest c, clear_in_condq ths t).
Proof.
  unfold cond_queue_deq. intros -> He. simpl. by rewrite eligible_clear, He.
Qed.

Lemma cond_queue_deq_cons_skip c t rest ths :
  c_queue c = t :: rest → eligible ths t = false →
  cond_queue_deq c ths = cond_queue_deq (set_c_queue rest c) (clear_in_condq ths t).
Proof.
  unfold cond_queue_deq. intros -> He. simpl. rewrite eligible_clear, He.
  by destruct (cond_queue_deq_loop rest (clear_in_condq ths t)) as [[? ?] ?].
Qed.

Lemma broadcast_loop_unfold fuel c ths :
  broadcast_loop (S fuel) c ths
  = match cond_queue_deq c ths with
    | (Some t, c', ths') => broadcast_loop fuel c' (PTHREAD_NEW_STATE ths' t PS_RUNNING)
    | (None, c', ths') => Some (c', ths')
    end.
Proof. simpl. by destruct (cond_queue_deq c ths) as [[[?|] ?] ?]. Qed.

#[local] Arguments broadcast_loop : simpl never.

(** With one call of [cond_queue_deq] more than there are queued threads the
    loop runs to its end: the queue is empty and every queued thread was
    handled in turn. *)
Lemma broadcast_loop_spec (q : list nat) :
  ∀ c ths fuel,
    c_queue c = q → (length q < fuel)%nat →
    broadcast_loop fuel c ths = Some (set_c_queue [] c, wake_all ths q).
Proof.
  induction q as [|t rest IH]; intros c ths fuel Hq Hf;
    (destruct fuel as [|fuel]; [simpl in Hf; lia|]).
  - rewrite broadcast_loop_unfold, cond_queue_deq_nil by done. done.
  - rewrite broadcast_loop_unfold. unfold wake_all; simpl. unfold wake_one at 2.
    rewrite eligible_clear.
    destruct (eligible ths t) eqn:He.
    + rewrite (cond_queue_deq_cons_eligible c t rest) by done.
      rewrite (IH (set_c_queue rest c)); [done|done|simpl in Hf; lia].
    + rewrite (cond_queue_deq_cons_skip c t rest) by done.
      rewrite <- broadcast_loop_unfold.
      rewrite (IH (set_c_queue rest c)); [done|done|simpl in Hf; lia].
Qed.

Lemma wake_one_deref ths t x :
  deref (wake_one ths t) x
  = if bool_decide (x = t)
    then (if eligible ths x then set_state PS_RUNNING (unlinked (deref ths x))
          else unlinked (deref ths x))
    else deref ths x.
Proof.
  unfold wake_one. rewrite eligible_clear.
  case_bool_decide as E.
  - subst x. destruct (eligible ths t).
    + unfold PTHREAD_NEW_STATE. by rewrite deref_insert, deref_clear.
    + apply deref_clear.
  - destruct (eligible ths t).
    + unfold PTHREAD_NEW_STATE. rewrite deref_insert_ne by congruence.
      apply deref_clear_ne. congruence.
    + apply deref_clear_ne. congruence.
Qed.

Lemma wake_one_eligible ths t x : eligible (wake_one ths t) x = eligible ths x.
Proof.
  unfold eligible at 1. rewrite wake_one_deref.
  case_bool_decide; [|done].
  by destruct (eligible ths x) eqn:E; rewrite <- E.
Qed.

Lemma woken_twice (s : struct_pthread) :
  set_state PS_RUNNING (unlinked (set_state PS_RUNNING (unlinked s)))
  = set_state PS_RUNNING (unlinked s).
Proof. unfold set_state, unlinked, set_flags; simpl. by rewrite mask_clear_twice. Qed.

Lemma wake_all_deref (q : list nat) :
  ∀ ths x,
    deref (wake_all ths q) x
    = if bool_decide (x ∈ q)
      then (if eligible ths x then set_state PS_RUNNING (unlinked (deref ths x))
            else unlinked (deref ths x))
      else deref ths x.
Proof.
  induction q as [|t q IH]; intros ths x.
  - done.
  - unfold wake_all in *. simpl. rewrite IH, wake_one_eligible, wake_one_deref.
    destruct (decide (x = t)) as [->|Hne].
    + rewrite (bool_decide_eq_true_2 (t ∈ t :: q)) by apply list_elem_of_here.
      rewrite (bool_decide_eq_true_2 (t = t)) by done.
      case_bool_decide; [|done].
      destruct (eligible ths t); [apply woken_twice|apply unlinked_twice].
    + rewrite (bool_decide_eq_false_2 (x = t)) by done.
      case_bool_decide as E1; case_bool_decide as E2; try done.
      * exfalso. apply E2. by apply list_elem_of_further.
      * exfalso. apply E1. apply elem_of_cons in E2 as [?|?]; [done|done].
Qed.

Lemma pthread_cond_broadcast_run l w c :
  conds w !! l = Some c → c_type c = COND_TYPE_FAST →
  pthread_cond_broadcast (Some l) w
  = Done 0 (World (<[l := set_c_mutex None (set_c_queue [] c)]> (conds w))
                  (mutexes w) (wake_all (threads w) (c_queue c)) (errno w)
                  (trace w ++ [SigDefer; SPINLOCK l; SPINUNLOCK l; SigUndefer])).
Proof.
  intros Hc Hty. unfold pthread_cond_broadcast.
  run_m. rewrite Hc. run_m. unfold get_cond. cbn. rewrite Hc, Hty. run_m.
  rewrite (broadcast_loop_spec (c_queue c)) by (done || lia).
  run_m. by rewrite <- !app_assoc.
Qed.

(** The loop bound of the model is never reached: a broadcast finishes or
    fails on a null handle, it does not spin. *)
Lemma pthread_cond_broadcast_terminates cond w :
  pthread_cond_broadcast cond w ≠ Spin.
Proof.
  destruct cond as [l|]; [|done].
  destruct (conds w !! l) as [c|] eqn:Hc.
  - destruct (c_type c) eqn:Hty.
    + by rewrite (pthread_cond_broadcast_run l w c Hc Hty).
    + unfold pthread_cond_broadcast. run_m. rewrite Hc. run_m.
      unfold get_cond. cbn. rewrite Hc, Hty. by run_m.
  - unfold pthread_cond_broadcast. run_m. by rewrite Hc.
Qed.

(** C5.  A broadcast on a fast condition variable (the only type
    [pthread_cond_init] creates) whose queued threads all have their
    [timeout] and [interrupted] flags unset returns 0, leaves the queue
    empty and [c_mutex] null, and leaves every thread that was queued in
    state [PS_RUNNING] with its membership flag unset; no other thread
    structure changes. *)
Theorem pthread_cond_broadcast_wakes_all
    (l : nat) (w : world) (c : struct_pthread_cond) :
  conds w !! l = Some c →
  c_type c = COND_TYPE_FAST →
  Forall (λ t, eligible (threads w) t = true) (c_queue c) →
  ∃ w', pthread_cond_broadcast (Some l) w = Done 0 w'
        ∧ conds w' !! l = Some (set_c_mutex None (set_c_queue [] c))
        ∧ (∀ x, x ∈ c_queue c →
                state (deref (threads w') x) = PS_RUNNING
                ∧ in_condq (threads w') x = false
                ∧ deref (threads w') x
                  = set_state PS_RUNNING (unlinked (deref (threads w) x)))
        ∧ (∀ x, x ∉ c_queue c → deref (threads w') x = deref (threads w) x).
Proof.
  intros Hc Hty Hall. eexists. split; [by apply pthread_cond_broadcast_run|].
  cbn [conds threads]. split; [by rewrite lookup_insert_eq|].
  rewrite Forall_forall in Hall. split.
  - intros x Hx. unfold in_condq.
    rewrite wake_all_deref, bool_decide_eq_true_2, Hall by done.
    repeat split. cbn. by rewrite mask_clear_test.
  - intros x Hx. by rewrite wake_all_deref, bool_decide_eq_false_2.
Qed.

(** ** Timed wait: deadline validation and null pointers *)

Lemma invalid_deadline_test ts :
  tv_sec ts < 0 ∨ tv_nsec ts < 0 ∨ 1000000000 ≤ tv_nsec ts →
  (tv_sec ts <? 0) || (tv_nsec ts <? 0) || (tv_nsec ts >=? 1000000000) = true.
Proof.
  intros H. rewrite !orb_true_iff, !Z.ltb_lt, Z.geb_leb, Z.leb_le. tauto.
Qed.

Lemma pthread_cond_timedwait_enter_bad_deadline
    thread_run cond mutex ts malloc unlock_rv w :
  tv_sec ts < 0 ∨ tv_nsec ts < 0 ∨ 1000000000 ≤ tv_nsec ts →
  pthread_cond_timedwait_enter thread_run cond mutex (Some ts) malloc unlock_rv w
  = Done (Returned (-1))
         (World (conds w) (mutexes w) (threads w) EINVAL
                (trace w ++ [EnterCancellationPoint; LeaveCancellationPoint])).
Proof.
  intros Hbad. unfold pthread_cond_timedwait_enter.
  unfold mbind at 1, M_bind at 1, _thread_enter_cancellation_point.
  rewrite emit_run. cbv zeta. rewrite (invalid_deadline_test ts Hbad).
  run_m. by rewrite <- app_assoc.
Qed.

(** C7.  A timed wait whose deadline has negative seconds, negative
    nanoseconds or nanoseconds of 10^9 or more stores EINVAL in [errno] and
    returns -1; its return value is not EINVAL.  It does so before the lazy
    initialisation, the queue, the threads and the mutex layer are touched:
    only [errno] and the cancellation-point bracket are left behind. *)
Theorem pthread_cond_timedwait_bad_deadline
    (thread_run : nat) (cond mutex : option nat) (ts : timespec)
    (malloc : option Z) (unlock_rv : Z) (w : world) :
  tv_sec ts < 0 ∨ tv_nsec ts < 0 ∨ 1000000000 ≤ tv_nsec ts →
  pthread_cond_timedwait_enter thread_run cond mutex (Some ts) malloc unlock_rv w
  = Done (Returned (-1))
         (World (conds w) (mutexes w) (threads w) EINVAL
                (trace w ++ [EnterCancellationPoint; LeaveCancellationPoint]))
  ∧ Returned (-1) ≠ Returned EINVAL.
Proof.
  intros Hbad. split; [|done].
  unfold pthread_cond_timedwait_enter.
  unfold mbind at 1, M_bind at 1, _thread_enter_cancellation_point.
  rewrite emit_run. cbv zeta. rewrite (invalid_deadline_test ts Hbad).
  run_m. by rewrite <- app_assoc.
Qed.

Lemma pthread_cond_timedwait_bad_deadline_witness :
  pthread_cond_timedwait_enter 2 (Some 7%nat) (Some 9%nat)
    (Some (Timespec 5 1000000000)) None 0 waiting_world
  = Done (Returned (-1))
         (World (conds waiting_world) (mutexes waiting_world)
                (threads waiting_world) EINVAL
                (trace waiting_world
                 ++ [EnterCancellationPoint; LeaveCancellationPoint]))
  ∧ Returned (-1) ≠ Returned EINVAL.
Proof.
  apply (pthread_cond_timedwait_bad_deadline 2 (Some 7%nat) (Some 9%nat)
           (Timespec 5 1000000000) None 0 waiting_world).
  right. right. simpl. lia.
Defined.

(** C8.  [pthread_cond_wait] with a null [cond] returns EINVAL and touches
    nothing but the cancellation-point bracket.  [pthread_cond_timedwait]
    does not: with a null [abstime] the deadline test reads through the null
    pointer, and with a null [cond] and a well-formed deadline the lazy
    initialisation reads through the null handle pointer. *)
Theorem pthread_cond_timedwait_null_pointer_faults
    (thread_run : nat) (mutex : option nat) (malloc : option Z)
    (unlock_rv : Z) (w : world) :
  (∀ cond : option nat,
     pthread_cond_timedwait_enter thread_run cond mutex None malloc unlock_rv w
     = Fault)
  ∧ (∀ ts : timespec, valid_deadline ts →
       pthread_cond_timedwait_enter thread_run None mutex (Some ts) malloc
         unlock_rv w
       = Fault)
  ∧ pthread_cond_wait_enter thread_run None mutex malloc unlock_rv w
    = Done (Returned EINVAL)
           (emitted w [EnterCancellationPoint; LeaveCancellationPoint]).
Proof.
  split; [|split].
  - intros cond. by unfold pthread_cond_timedwait_enter.
  - intros ts Hv. unfold pthread_cond_timedwait_enter.
    unfold mbind at 1, M_bind at 1, _thread_enter_cancellation_point.
    rewrite emit_run. cbv zeta. by rewrite (valid_deadline_test ts Hv).
  - unfold pthread_cond_wait_enter. run_m. by rewrite <- app_assoc.
Qed.

Lemma pthread_cond_timedwait_null_pointer_faults_witness :
  pthread_cond_timedwait_enter 2 None (Some 9%nat) (Some (Timespec 5 0)) None 0
    idle_world
  = Fault.
Proof.
  apply (proj1 (proj2 (pthread_cond_timedwait_null_pointer_faults
                         2 (Some 9%nat) None 0 idle_world))
           (Timespec 5 0)).
  unfold valid_deadline. simpl. lia.
Defined.

(** ** Lazy initialisation *)

Lemma pthread_cond_init_fresh l g w :
  pthread_cond_init (Some l) None (Some g) w
  = Done 0 (World (<[l := PthreadCond [] (Z.lor g COND_FLAGS_INITED)
                                      COND_TYPE_FAST None]> (conds w))
                  (mutexes w) (threads w) (errno w) (trace w)).
Proof. by unfold pthread_cond_init. Qed.

Lemma pthread_cond_init_inited g :
  cond_inited (PthreadCond [] (Z.lor g COND_FLAGS_INITED) COND_TYPE_FAST None).
Proof. unfold cond_inited. simpl. by rewrite mask_set_test. Qed.

(** A wait on a live handle never consults the allocator. *)
Lemma pthread_cond_wait_enter_no_malloc thread_run l mutex malloc malloc' unlock_rv w c :
  conds w !! l = Some c →
  pthread_cond_wait_enter thread_run (Some l) mutex malloc unlock_rv w
  = pthread_cond_wait_enter thread_run (Some l) mutex malloc' unlock_rv w.
Proof.
  intros Hc. unfold pthread_cond_wait_enter.
  unfold mbind at 1 2 3, M_bind at 1 2 3, _thread_enter_cancellation_point at 1.
  rewrite emit_run. unfold load_handle. cbn [conds emitted]. rewrite Hc.
  symmetry.
  unfold mbind at 1 2 3, M_bind at 1 2 3, _thread_enter_cancellation_point at 1.
  rewrite emit_run. cbn [conds emitted]. by rewrite Hc.
Qed.

Lemma pthread_cond_timedwait_enter_no_malloc
    thread_run l mutex abstime malloc malloc' unlock_rv w c :
  conds w !! l = Some c →
  pthread_cond_timedwait_enter thread_run (Some l) mutex abstime malloc unlock_rv w
  = pthread_cond_timedwait_enter thread_run (Some l) mutex abstime malloc' unlock_rv w.
Proof.
  intros Hc. unfold pthread_cond_timedwait_enter.
  unfold mbind at 1, M_bind at 1, _thread_enter_cancellation_point at 1.
  rewrite emit_run. cbv zeta.
  symmetry.
  unfold mbind at 1, M_bind at 1, _thread_enter_cancellation_point at 1.
  rewrite emit_run. cbv zeta.
  destruct abstime as [ts|]; [|done].
  destruct (_ || _); [done|].
  unfold mbind at 1 2, M_bind at 1 2, load_handle. cbn [conds emitted]. rewrite Hc.
  symmetry.
  unfold mbind at 1 2, M_bind at 1 2. cbn [conds emitted]. by rewrite Hc.
Qed.

(** ** The invariant between [c_mutex] and the queue *)

Lemma cond_queue_enq_scan_shape ths t q q1 :
  cond_queue_enq_scan ths t q = Some q1 →
  ∃ l1 l2, q1 = l1 ++ t :: l2 ∧ q = l1 ++ l2.
Proof.
  revert q1. induction q as [|x q IH]; intros q1; simpl; [done|].
  destruct (_ <=? _).
  - destruct (cond_queue_enq_scan ths t q) as [q'|]; [|done].
    intros [= <-]. destruct (IH q' eq_refl) as (l1 & l2 & -> & ->).
    by exists (x :: l1), l2.
  - intros [= <-]. by exists [], (x :: q).
Qed.

Lemma cond_queue_enq_shape c t ths c1 ths1 :
  cond_queue_enq c t ths = Some (c1, ths1) →
  ∃ l1 l2, c1 = set_c_queue (l1 ++ t :: l2) c ∧ c_queue c = l1 ++ l2
           ∧ ths1 = mark_in_condq ths t.
Proof.
  unfold cond_queue_enq, TAILQ_LAST, TAILQ_INSERT_TAIL.
  destruct (last (c_queue c)) as [tid|] eqn:Hl.
  - destruct (_ <=? _).
    + simpl. intros [= <- <-]. exists (c_queue c), []. by rewrite app_nil_r.
    + destruct (cond_queue_enq_scan ths t (c_queue c)) as [q1|] eqn:Hs; [|done].
      simpl. intros [= <- <-].
      destruct (cond_queue_enq_scan_shape _ _ _ _ Hs) as (l1 & l2 & -> & ?).
      by exists l1, l2.
  - simpl. intros [= <- <-]. apply last_None in Hl. exists [], []. by rewrite Hl.
Qed.

Lemma TAILQ_REMOVE_inserted (l1 l2 q : list nat) (t : nat) :
  TAILQ_REMOVE (l1 ++ t :: l2) t = Some q → q ≠ [] → l1 ++ l2 ≠ [].
Proof.
  destruct l1 as [|x l1]; simpl.
  - rewrite decide_True by done. by intros [= ->].
  - done.
Qed.

Lemma TAILQ_REMOVE_inserted_Some (l1 l2 : list nat) (t : nat) :
  is_Some (TAILQ_REMOVE (l1 ++ t :: l2) t).
Proof.
  apply TAILQ_REMOVE_is_Some, elem_of_app. right. apply list_elem_of_here.
Qed.

Lemma cv_invariant_bound (c : struct_pthread_cond) (m : option nat) (q : list nat) :
  m ≠ None → q ≠ [] → cv_invariant (set_c_mutex m (set_c_queue q c)).
Proof. intros Hm Hq. unfold cv_invariant; simpl. by split. Qed.

Section invariant.
Variable c : struct_pthread_cond.
Hypothesis Hinv : cv_invariant c.

(** Dropping threads from the queue and then checking for no more waiters
    keeps the invariant. *)
Lemma cv_invariant_shrunk (q : list nat) :
  (q ≠ [] → c_queue c ≠ []) →
  cv_invariant (check_no_more_waiters (set_c_queue q c)).
Proof.
  intros Hq. unfold check_no_more_waiters, cv_invariant. simpl.
  destruct q as [|x q]; simpl; [done|].
  split; [|done]. intros Hn. apply Hinv in Hn. by destruct Hq.
Qed.

(** The roll-back of a wait whose mutex could not be unlocked. *)
Lemma cv_invariant_rolled_back (m : option nat) (l1 l2 q : list nat) (t : nat) :
  c_queue c = l1 ++ l2 →
  c_mutex c = None ∨ c_mutex c = m →
  TAILQ_REMOVE (l1 ++ t :: l2) t = Some q →
  cv_invariant (check_no_more_waiters
                  (set_c_queue q (set_c_mutex m (set_c_queue (l1 ++ t :: l2) c)))).
Proof.
  intros Hq Hm E. unfold check_no_more_waiters, cv_invariant. simpl.
  destruct q as [|x q]; simpl; [done|].
  split; [|done]. intros ->.
  assert (l1 ++ l2 ≠ []) as Hne.
  { by apply (TAILQ_REMOVE_inserted l1 l2 (x :: q) t). }
  rewrite <- Hq in Hne. destruct Hm as [Hm|Hm]; by apply Hinv in Hm.
Qed.
End invariant.

Lemma cond_queue_remove_shape c t ths c1 ths1 :
  cond_queue_remove c t ths = Some (c1, ths1) →
  ∃ q, c1 = set_c_queue q c ∧ (q ≠ [] → c_queue c ≠ []).
Proof.
  unfold cond_queue_remove. destruct (in_condq ths t); simpl.
  - destruct (TAILQ_REMOVE (c_queue c) t) as [q|] eqn:E; [|done].
    intros [= <- <-]. exists q. split; [done|]. intros _.
    by destruct (c_queue c).
  - intros [= <- <-]. exists (c_queue c). by destruct c.
Qed.

Lemma cond_queue_deq_loop_shape q ths :
  (cond_queue_deq_loop q ths).1.2 ≠ [] → q ≠ [].
Proof. by destruct q. Qed.

Lemma remove_self_preserves l t w r w' :
  cv_inv_at l w → remove_self l t w = Done r w' → cv_inv_at l w'.
Proof.
  intros (c & Hc & Hi & Hinv).
  destruct (cond_queue_remove c t (threads w)) as [[c1 ths1]|] eqn:Hr.
  2:{ unfold remove_self, mbind, M_bind, get_cond, get_threads.
      by rewrite Hc, Hr. }
  rewrite (remove_self_run l t w c c1 ths1 Hc Hr).
  intros [= _ <-]. unfold cv_inv_at. cbn [conds]. rewrite lookup_insert_eq.
  eexists. split; [done|].
  destruct (cond_queue_remove_shape c t (threads w) c1 ths1 Hr) as (q & -> & Hq).
  split.
  - unfold cond_inited, check_no_more_waiters in *.
    by destruct (TAILQ_FIRST _).
  - by apply cv_invariant_shrunk.
Qed.

Lemma cv_inv_at_lookup l w w' :
  conds w' !! l = conds w !! l → cv_inv_at l w → cv_inv_at l w'.
Proof. unfold cv_inv_at. by intros ->. Qed.

Lemma cv_inv_at_conds l w w' : conds w' = conds w → cv_inv_at l w → cv_inv_at l w'.
Proof. intros E. apply cv_inv_at_lookup. by rewrite E. Qed.

(** From [_mutex_cv_unlock] on, given the world [w] a wait has built: the
    caller [t] is linked into the queue [l1 ++ t :: l2] and the variable is
    bound to [m]. *)
Lemma unlock_and_block_preserves t l a urv w c0 m l1 l2 r w' :
  cv_invariant c0 → cond_inited c0 →
  c_queue c0 = l1 ++ l2 →
  c_mutex c0 = None ∨ c_mutex c0 = m →
  (urv = 0 → m ≠ None) →
  conds w !! l = Some (set_c_mutex m (set_c_queue (l1 ++ t :: l2) c0)) →
  in_condq (threads w) t = true →
  unlock_and_block t l a urv w = Done r w' →
  cv_inv_at l w'.
Proof.
  intros Hinv Hi Hq Hm Hurv Hc Hf. unfold unlock_and_block.
  unfold mbind at 1, M_bind at 1, _mutex_cv_unlock.
  unfold mbind at 1, M_bind at 1. rewrite emit_run.
  unfold mret at 1, M_ret at 1.
  destruct (Z.eqb_spec urv 0) as [E|E]; cbn [negb].
  - run_m. intros [= _ <-]. cbn [conds]. eexists. split; [exact Hc|].
    split; [done|]. apply cv_invariant_bound; [auto|by destruct l1].
  - unfold mbind at 1, M_bind at 1.
    destruct (TAILQ_REMOVE_inserted_Some l1 l2 t) as [q Hrm].
    erewrite remove_self_run;
      [|cbn [conds emitted]; exact Hc
       |unfold cond_queue_remove; cbn [threads emitted c_queue set_c_mutex
                                        set_c_queue];
        rewrite Hf, Hrm; reflexivity].
    run_m. intros [= _ <-]. unfold cv_inv_at. cbn [conds].
    rewrite lookup_insert_eq.
    eexists. split; [done|].
    split.
    + unfold cond_inited, check_no_more_waiters in *. by destruct (TAILQ_FIRST _).
    + by apply (cv_invariant_rolled_back c0 Hinv m l1 l2 q t).
Qed.

Lemma unlock_and_fail_preserves l t w r w' :
  cv_inv_at l w → unlock_and_fail l t w = Done r w' → cv_inv_at l w'.
Proof. rewrite unlock_and_fail_run. by intros H [= _ <-]. Qed.

Lemma in_condq_marked_then_modified ths t f :
  (∀ s, flags (f s) = flags s) →
  in_condq (<[t := f (deref (mark_in_condq ths t) t)]> (mark_in_condq ths t)) t = true.
Proof.
  intros Hf. unfold in_condq. rewrite deref_insert, Hf.
  unfold mark_in_condq. rewrite deref_insert. simpl. by rewrite mask_set_test.
Qed.

Lemma accepted_mutex w c a :
  bool_decide (c_mutex c ≠ None) && bool_decide (c_mutex c ≠ mutexes w !! a) = false →
  c_mutex c = None ∨ c_mutex c = mutexes w !! a.
Proof.
  intros Hb. apply andb_false_iff in Hb as [Hb|Hb]; apply bool_decide_eq_false in Hb.
  - left. by destruct (c_mutex c); [destruct Hb|].
  - right. by destruct (decide (c_mutex c = mutexes w !! a)).
Qed.

Lemma pthread_cond_wait_switch_preserves t l mutex urv w r w' :
  cv_inv_at l w → unlock_refuses_null w mutex urv →
  pthread_cond_wait_switch t l mutex urv w = Done r w' →
  cv_inv_at l w'.
Proof.
  intros Hw Hu. pose proof Hw as (c & Hc & Hi & Hinv).
  unfold pthread_cond_wait_switch.
  unfold mbind at 1, M_bind at 1, get_cond. rewrite Hc.
  destruct (c_type c); [|by apply unlock_and_fail_preserves].
  destruct mutex as [a|]; [|by apply unlock_and_fail_preserves].
  unfold mbind at 1, M_bind at 1, load_mutex.
  destruct (_ && _) eqn:Hb; [by apply unlock_and_fail_preserves|].
  apply accepted_mutex in Hb.
  unfold enq_self. run_m. unfold get_cond. cbn. rewrite Hc.
  destruct (cond_queue_enq c t _) as [[c1 ths1]|] eqn:He; [|done].
  destruct (cond_queue_enq_shape _ _ _ _ _ He) as (l1 & l2 & -> & Hq & ->).
  cbn. rewrite lookup_insert_eq.
  apply (unlock_and_block_preserves t l a urv _ c (mutexes w !! a) l1 l2);
    try done.
  - intros -> Hn. by destruct (Hu a).
  - cbn. by rewrite insert_insert_eq, lookup_insert_eq.
  - cbn. by apply in_condq_marked_then_modified.
Qed.

Lemma pthread_cond_timedwait_switch_preserves t l mutex ts urv w r w' :
  cv_inv_at l w → unlock_refuses_null w mutex urv →
  pthread_cond_timedwait_switch t l mutex ts urv w = Done r w' →
  cv_inv_at l w'.
Proof.
  intros Hw Hu. pose proof Hw as (c & Hc & Hi & Hinv).
  unfold pthread_cond_timedwait_switch.
  unfold mbind at 1, M_bind at 1, get_cond. rewrite Hc.
  destruct (c_type c); [|by apply unlock_and_fail_preserves].
  destruct mutex as [a|]; [|by apply unlock_and_fail_preserves].
  unfold mbind at 1, M_bind at 1, load_mutex.
  destruct (_ && _) eqn:Hb; [by apply unlock_and_fail_preserves|].
  apply accepted_mutex in Hb.
  unfold enq_self. run_m. unfold get_cond. cbn. rewrite Hc.
  destruct (cond_queue_enq c t _) as [[c1 ths1]|] eqn:He; [|done].
  destruct (cond_queue_enq_shape _ _ _ _ _ He) as (l1 & l2 & -> & Hq & ->).
  cbn. rewrite lookup_insert_eq.
  apply (unlock_and_block_preserves t l a urv _ c (mutexes w !! a) l1 l2);
    try done.
  - intros -> Hn. by destruct (Hu a).
  - cbn. by rewrite insert_insert_eq, lookup_insert_eq.
  - cbn. apply in_condq_mark.
Qed.

Lemma cv_inv_at_emitted l w evs : cv_inv_at l w → cv_inv_at l (emitted w evs).
Proof. done. Qed.

Lemma unlock_refuses_null_emitted w evs mutex urv :
  unlock_refuses_null w mutex urv → unlock_refuses_null (emitted w evs) mutex urv.
Proof. done. Qed.

Lemma pthread_cond_wait_enter_preserves t l mutex malloc urv w r w' :
  cv_inv_at l w → unlock_refuses_null w mutex urv →
  pthread_cond_wait_enter t (Some l) mutex malloc urv w = Done r w' →
  cv_inv_at l w'.
Proof.
  intros Hw Hu. pose proof Hw as (c & Hc & Hi & Hinv).
  rewrite (pthread_cond_wait_enter_live _ _ _ _ _ _ c) by done.
  apply pthread_cond_wait_switch_preserves.
  - by apply cv_inv_at_emitted.
  - by apply unlock_refuses_null_emitted.
Qed.

Lemma pthread_cond_timedwait_enter_preserves t l mutex abstime malloc urv w r w' :
  cv_inv_at l w → unlock_refuses_null w mutex urv →
  pthread_cond_timedwait_enter t (Some l) mutex abstime malloc urv w = Done r w' →
  cv_inv_at l w'.
Proof.
  intros Hw Hu. pose proof Hw as (c & Hc & Hi & Hinv).
  destruct abstime as [ts|]; [|done].
  destruct (decide (tv_sec ts < 0 ∨ tv_nsec ts < 0 ∨ 1000000000 ≤ tv_nsec ts))
    as [Hbad|Hok].
  - rewrite (pthread_cond_timedwait_enter_bad_deadline t (Some l) mutex ts malloc urv w Hbad).
    by intros [= _ <-].
  - rewrite (pthread_cond_timedwait_enter_live _ _ _ _ _ _ _ c);
      [|done|done|unfold valid_deadline; lia].
    apply pthread_cond_timedwait_switch_preserves.
    + by apply cv_inv_at_emitted.
    + by apply unlock_refuses_null_emitted.
Qed.

Lemma wait_epilogue_conds t i rv w r w' :
  wait_epilogue t i rv w = Done r w' → conds w' = conds w.
Proof.
  unfold wait_epilogue. run_m.
  destruct (negb (i =? 0)); [destruct (continuation _)|]; run_m;
    by intros [= _ <-].
Qed.

Lemma preserves_bind {A B : Type} (P : world → Prop) (m : M A) (k : A → M B) :
  preserves P m → (∀ a, preserves P (k a)) → preserves P (m ≫= k).
Proof.
  intros Hm Hk w b w' HP. unfold mbind, M_bind.
  destruct (m w) as [a w1| | |] eqn:E; [|done|done|done].
  intros He. eapply Hk; [|exact He]. by eapply Hm.
Qed.

Lemma preserves_ret {A : Type} (P : world → Prop) (a : A) : preserves P (mret a).
Proof. by intros w b w' HP [= _ <-]. Qed.

Lemma preserves_conds {A : Type} l (m : M A) :
  (∀ w a w', m w = Done a w' → conds w' = conds w) → preserves (cv_inv_at l) m.
Proof. intros Hm w a w' HP He. eapply cv_inv_at_conds; [|exact HP]. by eapply Hm. Qed.

Lemma preserves_emit l e : preserves (cv_inv_at l) (emit e).
Proof. apply preserves_conds. by intros w a w' [= _ <-]. Qed.

Lemma preserves_get_threads l : preserves (cv_inv_at l) get_threads.
Proof. apply preserves_conds. by intros w a w' [= _ <-]. Qed.

Lemma preserves_mutex_cv_lock l mutex rv : preserves (cv_inv_at l) (_mutex_cv_lock mutex rv).
Proof. apply preserves_bind; [apply preserves_emit|intros; apply preserves_ret]. Qed.

Lemma preserves_wait_epilogue l t i rv : preserves (cv_inv_at l) (wait_epilogue t i rv).
Proof. apply preserves_conds. intros w a w'. apply wait_epilogue_conds. Qed.

Lemma preserves_remove_self l t : preserves (cv_inv_at l) (remove_self l t).
Proof. intros w a w'. apply remove_self_preserves. Qed.

Create HintDb cv.

#[local] Hint Resolve preserves_ret preserves_emit preserves_get_threads
  preserves_mutex_cv_lock preserves_wait_epilogue preserves_remove_self : cv.

(** Splits a sequence into its statements and closes the ones that are
    known to keep the invariant. *)
Ltac preserve :=
  repeat first
    [ solve [auto with cv]
    | progress (unfold _SPINLOCK, _SPINUNLOCK)
    | apply preserves_bind; [|intros ?] ].

Lemma pthread_cond_wait_resume_preserves t l mutex lrv w r w' :
  cv_inv_at l w →
  pthread_cond_wait_resume t l mutex lrv w = Done r w' →
  cv_inv_at l w'.
Proof.
  revert w r w'. change (preserves (cv_inv_at l) (pthread_cond_wait_resume t l mutex lrv)).
  unfold pthread_cond_wait_resume. preserve.
  destruct (negb _); preserve.
Qed.

Lemma pthread_cond_timedwait_resume_preserves t l mutex lrv w r w' :
  cv_inv_at l w →
  pthread_cond_timedwait_resume t l mutex lrv w = Done r w' →
  cv_inv_at l w'.
Proof.
  revert w r w'.
  change (preserves (cv_inv_at l) (pthread_cond_timedwait_resume t l mutex lrv)).
  unfold pthread_cond_timedwait_resume. preserve.
  destruct (_ && _); preserve.
Qed.

Lemma pthread_cond_signal_preserves l w r w' :
  cv_inv_at l w → pthread_cond_signal (Some l) w = Done r w' → cv_inv_at l w'.
Proof.
  intros Hw. pose proof Hw as (c & Hc & Hi & Hinv).
  unfold pthread_cond_signal. run_m. rewrite Hc. run_m.
  unfold get_cond. cbn. rewrite Hc.
  destruct (c_type c).
  - run_m. unfold cond_queue_deq.
    pose proof (cond_queue_deq_loop_shape (c_queue c) (threads w)) as Hq.
    destruct (cond_queue_deq_loop (c_queue c) (threads w)) as [[p q] ths'].
    run_m. intros [= _ <-]. unfold cv_inv_at. cbn. rewrite lookup_insert_eq.
    eexists. split; [done|]. split.
    + unfold cond_inited, check_no_more_waiters in *. by destruct (TAILQ_FIRST _).
    + by apply cv_invariant_shrunk.
  - run_m. by intros [= _ <-].
Qed.

Lemma pthread_cond_broadcast_preserves l w r w' :
  cv_inv_at l w → pthread_cond_broadcast (Some l) w = Done r w' → cv_inv_at l w'.
Proof.
  intros Hw. pose proof Hw as (c & Hc & Hi & Hinv).
  destruct (c_type c) eqn:Hty.
  - rewrite (pthread_cond_broadcast_run l w c Hc Hty).
    intros [= _ <-]. unfold cv_inv_at. cbn. rewrite lookup_insert_eq.
    eexists. split; [done|]. by split.
  - unfold pthread_cond_broadcast. run_m. rewrite Hc. run_m.
    unfold get_cond. cbn. rewrite Hc, Hty. run_m. by intros [= _ <-].
Qed.

Lemma cv_step_preserves l w w' : cv_step l w w' → cv_inv_at l w → cv_inv_at l w'.
Proof.
  destruct 1; intros Hw.
  - by eapply pthread_cond_wait_enter_preserves.
  - by eapply pthread_cond_wait_resume_preserves.
  - by eapply pthread_cond_timedwait_enter_preserves.
  - by eapply pthread_cond_timedwait_resume_preserves.
  - by eapply pthread_cond_signal_preserves.
  - by eapply pthread_cond_broadcast_preserves.
  - by eapply cv_inv_at_lookup.
Qed.

(** C3, as the code has it.  Start from an initialised condition variable
    with an empty queue and a null [c_mutex].  After any number of steps,
    each of them a completed run of wait (to the point where it blocks,
    rolls back or is rejected), of the rest of a wait after rescheduling
    (including the timeout and interrupt cleanups), of timed wait, signal or
    broadcast, by any threads and in any order, interleaved with arbitrary
    changes by the scheduler and other code to everything but this
    structure, [c_mutex] is null exactly when the queue is empty.  Two
    provisos are part of the steps.  The mutex layer refuses to unlock
    through a handle that holds NULL ([unlock_refuses_null], a premise of
    the wait steps): thr_cond.c tests the pointer only and stores what the
    handle holds in [c_mutex].  And a cleanup is a step only for a caller
    that is linked in the queue if it carries the membership flag
    ([cleanup_completes_iff_linked]): for a thread left flagged by a reset
    of the variable over queued threads, [TAILQ_REMOVE] goes through stale
    links and the run is no step. *)
Theorem c_mutex_null_iff_queue_empty
    (l : nat) (w0 w : world) (c0 : struct_pthread_cond) :
  conds w0 !! l = Some c0 →
  cond_inited c0 →
  c_queue c0 = [] →
  c_mutex c0 = None →
  rtc (cv_step l) w0 w →
  ∃ c, conds w !! l = Some c ∧ (c_mutex c = None ↔ c_queue c = []).
Proof.
  intros Hc Hi Hq Hm Hsteps.
  assert (cv_inv_at l w0) as H0.
  { exists c0. unfold cv_invariant. by rewrite Hq, Hm. }
  clear Hc Hi Hq Hm.
  assert (cv_inv_at l w) as (c & ? & ? & ?); [|by exists c].
  induction Hsteps as [w|w1 w2 w3 Hstep _ IH]; [done|].
  apply IH. by eapply cv_step_preserves.
Qed.

(** The claim C3 makes without a proviso on the mutex layer fails.  No
    mutex handle was stored at address 11, which therefore holds NULL; when
    an unlock through it succeeds, the wait on the initialised, empty and
    unbound variable at 7 completes its critical section and blocks the
    caller on a queue that is not empty with [c_mutex] still null. *)
Lemma unlock_through_null_handle_would_unbind :
  mutexes idle_world !! 11%nat = None
  ∧ ∃ w', pthread_cond_wait_enter 1 (Some 7%nat) (Some 11%nat) None 0
            idle_world
          = Done Blocked w'
          ∧ (c_queue <$> conds w' !! 7%nat) = Some [1%nat]
          ∧ (c_mutex <$> conds w' !! 7%nat) = Some None.
Proof. split; [done|]. eexists. by vm_compute. Qed.

(** Where the list of the queue stops describing the code: after a reset of
    the variable at 7 over its three waiters the queue is empty and thread 3
    still carries the membership flag; its timeout cleanup then unlinks it
    through the links the reset left behind. *)
Lemma cleanup_after_reset_over_waiters_is_stale :
  ∃ w1, _cond_reinit (Some 7%nat) None (three_waiters_world timed_out_waiter)
        = Done 0 w1
        ∧ queue_at 7 w1 = []
        ∧ in_condq (threads w1) 3 = true
        ∧ pthread_cond_timedwait_resume 3 7 9 0 w1 = Stale.
Proof. eexists. by vm_compute. Qed.

(** ** Lazy initialisation on first use *)

Lemma pthread_cond_wait_enter_placeholder t l mutex g malloc' urv w :
  conds w !! l = None →
  pthread_cond_wait_enter t (Some l) mutex (Some g) urv w
  = pthread_cond_wait_enter t (Some l) mutex malloc' urv
      (World (<[l := PthreadCond [] (Z.lor g COND_FLAGS_INITED) COND_TYPE_FAST None]>
                (conds w))
             (mutexes w) (threads w) (errno w) (trace w)).
Proof.
  intros Hc.
  rewrite (pthread_cond_wait_enter_live t l mutex malloc' urv _ _
             (lookup_insert_eq _ _ _) (pthread_cond_init_inited g)).
  unfold pthread_cond_wait_enter.
  unfold mbind at 1 2 3, M_bind at 1 2 3, _thread_enter_cancellation_point at 1.
  rewrite emit_run. unfold load_handle. cbn [conds emitted]. rewrite Hc.
  unfold mbind at 1, M_bind at 1. rewrite pthread_cond_init_fresh.
  unfold mret at 1, M_ret at 1. cbn [Z.eqb].
  unfold mbind at 1 2 3, M_bind at 1 2 3,
    _thread_enter_cancellation_point, _SPINLOCK.
  rewrite !emit_run.
  erewrite init_static_queue_inited;
    [|apply lookup_insert_eq|apply pthread_cond_init_inited].
  unfold emitted. cbn. by rewrite <- !app_assoc.
Qed.

Lemma pthread_cond_timedwait_enter_placeholder t l mutex ts g malloc' urv w :
  conds w !! l = None → valid_deadline ts →
  pthread_cond_timedwait_enter t (Some l) mutex (Some ts) (Some g) urv w
  = pthread_cond_timedwait_enter t (Some l) mutex (Some ts) malloc' urv
      (World (<[l := PthreadCond [] (Z.lor g COND_FLAGS_INITED) COND_TYPE_FAST None]>
                (conds w))
             (mutexes w) (threads w) (errno w) (trace w)).
Proof.
  intros Hc Hv.
  rewrite (pthread_cond_timedwait_enter_live t l mutex ts malloc' urv _ _
             (lookup_insert_eq _ _ _) (pthread_cond_init_inited g) Hv).
  unfold pthread_cond_timedwait_enter.
  unfold mbind at 1, M_bind at 1, _thread_enter_cancellation_point at 1.
  rewrite emit_run. cbv zeta. rewrite (valid_deadline_test ts Hv).
  unfold mbind at 1 2, M_bind at 1 2.
  unfold load_handle. cbn [conds emitted]. rewrite Hc.
  unfold mbind at 1, M_bind at 1. rewrite pthread_cond_init_fresh.
  unfold mret at 1, M_ret at 1. cbn [Z.eqb].
  unfold mbind at 1 2 3, M_bind at 1 2 3,
    _thread_enter_cancellation_point, _SPINLOCK.
  rewrite !emit_run.
  erewrite init_static_queue_inited;
    [|apply lookup_insert_eq|apply pthread_cond_init_inited].
  unfold emitted. cbn. by rewrite <- !app_assoc.
Qed.

Lemma pthread_cond_signal_placeholder l w :
  conds w !! l = None → pthread_cond_signal (Some l) w = Done EINVAL w.
Proof. intros Hc. unfold pthread_cond_signal. run_m. by rewrite Hc. Qed.

Lemma pthread_cond_broadcast_placeholder l w :
  conds w !! l = None → pthread_cond_broadcast (Some l) w = Done EINVAL w.
Proof. intros Hc. unfold pthread_cond_broadcast. run_m. by rewrite Hc. Qed.

(** A wait with a usable mutex on a fresh variable queues the caller, binds
    the variable to the mutex and blocks. *)
Lemma pthread_cond_wait_switch_fresh t l a g w :
  conds w !! l
  = Some (PthreadCond [] (Z.lor g COND_FLAGS_INITED) COND_TYPE_FAST None) →
  ∃ w', pthread_cond_wait_switch t l (Some a) 0 w = Done Blocked w'
        ∧ conds w' !! l
          = Some (PthreadCond [t] (Z.lor g COND_FLAGS_INITED) COND_TYPE_FAST
                              (mutexes w !! a))
        ∧ in_condq (threads w') t = true
        ∧ state (deref (threads w') t) = PS_COND_WAIT.
Proof.
  intros Hc. unfold pthread_cond_wait_switch.
  unfold mbind at 1, M_bind at 1, get_cond. rewrite Hc. cbn [c_type c_mutex].
  unfold mbind at 1, M_bind at 1, load_mutex.
  rewrite bool_decide_eq_false_2 by (by intros H). cbn [andb].
  unfold enq_self, unlock_and_block. run_m. unfold get_cond. cbn. rewrite Hc.
  cbn. rewrite lookup_insert_eq. cbn.
  eexists. split; [done|]. cbn.
  rewrite insert_insert_eq, lookup_insert_eq. split; [done|].
  unfold in_condq. rewrite !deref_insert. cbn.
  unfold mark_in_condq. rewrite !deref_insert. cbn.
  by rewrite mask_set_test.
Qed.

(** C4, as the code has it.  On a live handle, a wait whose mutex pointer is
    null, or whose mutex differs from the non-null mutex the variable is
    bound to, returns EINVAL; so does a timed wait with a well-formed
    deadline.  The caller is not queued: no thread structure changes, the
    mutex layer is not called, [c_mutex] and [c_type] are what they were,
    and a variable that carries the initialisation flag is left exactly as
    it was (one that lacks it has had its queue initialised).  On a
    zero-valued placeholder the lazy initialisation comes first: with a
    null mutex pointer and a successful allocation the handle gets a fresh
    variable and the call returns EINVAL without queueing the caller; when
    the allocation fails the call returns ENOMEM, whatever the mutex.  A
    wait through a null handle pointer returns EINVAL and touches
    nothing. *)
Theorem wait_rejects_bad_mutex
    (thread_run l : nat) (mutex : option nat) (malloc : option Z)
    (unlock_rv : Z) (ts : timespec) (w : world) :
  let rejected c' :=
    World (<[l := c']> (conds w)) (mutexes w) (threads w) (errno w)
          (trace w ++ [EnterCancellationPoint; EnterCancellationPoint;
                       SPINLOCK l; SPINUNLOCK l;
                       LeaveCancellationPoint; LeaveCancellationPoint]) in
  (∀ c, conds w !! l = Some c → mutex_mismatch w c mutex →
     ∃ c',
       pthread_cond_wait_enter thread_run (Some l) mutex malloc unlock_rv w
       = Done (Returned EINVAL) (rejected c')
       ∧ (valid_deadline ts →
          pthread_cond_timedwait_enter thread_run (Some l) mutex (Some ts) malloc
            unlock_rv w
          = Done (Returned EINVAL) (rejected c'))
       ∧ c_mutex c' = c_mutex c ∧ c_type c' = c_type c
       ∧ (cond_inited c → c' = c ∧ conds (rejected c') = conds w)
       ∧ (¬ cond_inited c →
          c_queue c' = [] ∧ c_flags c' = Z.lor (c_flags c) COND_FLAGS_INITED))
  ∧ (conds w !! l = None → ∀ g,
       let fresh := PthreadCond [] (Z.lor g COND_FLAGS_INITED) COND_TYPE_FAST None in
       pthread_cond_wait_enter thread_run (Some l) None (Some g) unlock_rv w
       = Done (Returned EINVAL) (rejected fresh)
       ∧ (valid_deadline ts →
          pthread_cond_timedwait_enter thread_run (Some l) None (Some ts) (Some g)
            unlock_rv w
          = Done (Returned EINVAL) (rejected fresh)))
  ∧ (conds w !! l = None →
       pthread_cond_wait_enter thread_run (Some l) mutex None unlock_rv w
       = Done (Returned ENOMEM)
           (emitted w [EnterCancellationPoint; LeaveCancellationPoint])
       ∧ (valid_deadline ts →
          pthread_cond_timedwait_enter thread_run (Some l) mutex (Some ts) None
            unlock_rv w
          = Done (Returned ENOMEM)
              (emitted w [EnterCancellationPoint; LeaveCancellationPoint])))
  ∧ pthread_cond_wait_enter thread_run None mutex malloc unlock_rv w
    = Done (Returned EINVAL)
        (emitted w [EnterCancellationPoint; LeaveCancellationPoint]).
Proof.
  intros rejected. split; [|split; [|split]].
  - intros c Hc Hm. exists (statically_initialised c).
    destruct (statically_initialised_spec c) as (Hcm & Hty & Hin & Hout).
    split; [by apply pthread_cond_wait_enter_rejects|].
    split; [intros Hv; by apply pthread_cond_timedwait_enter_rejects|].
    split; [done|]. split; [done|]. split; [|done].
    intros Hi. split; [by apply Hin|].
    subst rejected. cbn. rewrite (Hin Hi). by apply insert_id.
  - intros Hc g fresh.
    assert (mutex_mismatch
              (World (<[l := fresh]> (conds w)) (mutexes w) (threads w) (errno w)
                     (trace w)) fresh None) as Hm by by left.
    assert (statically_initialised fresh = fresh) as Hs.
    { apply statically_initialised_spec, pthread_cond_init_inited. }
    split; [|intros Hv].
    + rewrite (pthread_cond_wait_enter_placeholder _ _ _ _ None) by done.
      rewrite (pthread_cond_wait_enter_rejects _ _ _ _ _ _ fresh);
        [|apply lookup_insert_eq|done].
      subst rejected. cbn. by rewrite Hs, insert_insert_eq.
    + rewrite (pthread_cond_timedwait_enter_placeholder _ _ _ _ _ None) by done.
      rewrite (pthread_cond_timedwait_enter_rejects _ _ _ _ _ _ _ fresh);
        [|apply lookup_insert_eq|done|done].
      subst rejected. cbn. by rewrite Hs, insert_insert_eq.
  - intros Hc. split; [|intros Hv].
    + unfold pthread_cond_wait_enter, pthread_cond_init. run_m. rewrite Hc. run_m.
      by rewrite <- !app_assoc.
    + unfold pthread_cond_timedwait_enter.
      unfold mbind at 1, M_bind at 1, _thread_enter_cancellation_point at 1.
      rewrite emit_run. cbv zeta. rewrite (valid_deadline_test ts Hv).
      unfold pthread_cond_init. run_m. rewrite Hc. run_m.
      by rewrite <- !app_assoc.
  - unfold pthread_cond_wait_enter. run_m. by rewrite <- !app_assoc.
Qed.

(** The claim C4 makes for every call fails on a placeholder: with a null
    mutex pointer and an allocator that answers NULL, the wait and the timed
    wait on the placeholder at address 7 return ENOMEM, not EINVAL. *)
Lemma null_mutex_on_placeholder_returns_enomem :
  conds placeholder_world !! 7%nat = None
  ∧ pthread_cond_wait_enter 1 (Some 7%nat) None None 0 placeholder_world
    = Done (Returned ENOMEM)
        (emitted placeholder_world [EnterCancellationPoint; LeaveCancellationPoint])
  ∧ pthread_cond_timedwait_enter 1 (Some 7%nat) None (Some (Timespec 5 0)) None 0
      placeholder_world
    = Done (Returned ENOMEM)
        (emitted placeholder_world [EnterCancellationPoint; LeaveCancellationPoint])
  ∧ ENOMEM ≠ EINVAL.
Proof. by vm_compute. Qed.

(** C9, as the code has it.  A first wait or timed wait (with a well-formed
    deadline) on a zero-valued placeholder whose allocation succeeds behaves
    as the same call on a freshly initialised fast variable with an empty
    queue and a null [c_mutex], a call that never consults the allocator:
    the initialisation happens once and the normal protocol follows; with a
    usable mutex the caller ends up queued on the now live variable and
    blocked.  A signal or a broadcast on a placeholder returns EINVAL and
    leaves the handle null. *)
Theorem placeholder_resolved_by_waits_only
    (thread_run l : nat) (mutex : option nat) (g : Z) (unlock_rv : Z)
    (ts : timespec) (w : world) :
  conds w !! l = None →
  let fresh := PthreadCond [] (Z.lor g COND_FLAGS_INITED) COND_TYPE_FAST None in
  let w1 := World (<[l := fresh]> (conds w)) (mutexes w) (threads w) (errno w)
                  (trace w) in
  cond_inited fresh
  ∧ (∀ malloc',
       pthread_cond_wait_enter thread_run (Some l) mutex (Some g) unlock_rv w
       = pthread_cond_wait_enter thread_run (Some l) mutex malloc' unlock_rv w1)
  ∧ (valid_deadline ts → ∀ malloc',
       pthread_cond_timedwait_enter thread_run (Some l) mutex (Some ts) (Some g)
         unlock_rv w
       = pthread_cond_timedwait_enter thread_run (Some l) mutex (Some ts) malloc'
           unlock_rv w1)
  ∧ (∀ a, ∃ w',
       pthread_cond_wait_enter thread_run (Some l) (Some a) (Some g) 0 w
       = Done Blocked w'
       ∧ conds w' !! l
         = Some (PthreadCond [thread_run] (Z.lor g COND_FLAGS_INITED)
                             COND_TYPE_FAST (mutexes w !! a))
       ∧ in_condq (threads w') thread_run = true
       ∧ state (deref (threads w') thread_run) = PS_COND_WAIT)
  ∧ pthread_cond_signal (Some l) w = Done EINVAL w
  ∧ pthread_cond_broadcast (Some l) w = Done EINVAL w.
Proof.
  intros Hc fresh w1.
  split; [apply pthread_cond_init_inited|].
  split; [intros; by apply pthread_cond_wait_enter_placeholder|].
  split; [intros; by apply pthread_cond_timedwait_enter_placeholder|].
  split; [|split;
           [by apply pthread_cond_signal_placeholder
           |by apply pthread_cond_broadcast_placeholder]].
  intros a.
  rewrite (pthread_cond_wait_enter_placeholder _ _ _ _ None) by done.
  rewrite (pthread_cond_wait_enter_live _ _ _ _ _ _ fresh);
    [|apply lookup_insert_eq|apply pthread_cond_init_inited].
  exact (pthread_cond_wait_switch_fresh thread_run l a g
           (emitted w1 [EnterCancellationPoint; EnterCancellationPoint; SPINLOCK l])
           (lookup_insert_eq _ _ _)).
Qed.

(** The claim C9 makes for signal and broadcast fails: on the placeholder at
    address 7 both return EINVAL and the handle is as null as before. *)
Lemma signal_and_broadcast_keep_placeholder :
  conds placeholder_world !! 7%nat = None
  ∧ pthread_cond_signal (Some 7%nat) placeholder_world
    = Done EINVAL placeholder_world
  ∧ pthread_cond_broadcast (Some 7%nat) placeholder_world
    = Done EINVAL placeholder_world.
Proof. by vm_compute. Qed.

(** ** The theorems at concrete inputs *)

Lemma c_mutex_null_iff_queue_empty_witness :
  ∃ c,
    conds (world_after (pthread_cond_signal (Some 7%nat) four_waiters_world)
             four_waiters_world) !! 7%nat = Some c
    ∧ (c_mutex c = None ↔ c_queue c = [])
    ∧ c_queue c = [3; 4; 2]%nat
    ∧ c_mutex c = Some 77%nat.
Proof.
  destruct (c_mutex_null_iff_queue_empty 7 idle_world
              (world_after (pthread_cond_signal (Some 7%nat) four_waiters_world)
                 four_waiters_world)
              fresh_cond)
    as (c & Hc & Hiff).
  - reflexivity.
  - by vm_compute.
  - reflexivity.
  - reflexivity.
  - eapply rtc_l.
    { apply (step_wait 7 1 (Some 9%nat) None 0 Blocked).
      - intros a [= <-]. by vm_compute.
      - by vm_compute. }
    eapply rtc_l.
    { apply (step_wait 7 2 (Some 9%nat) None 0 Blocked).
      - intros a [= <-]. by vm_compute.
      - by vm_compute. }
    eapply rtc_l.
    { apply (step_wait 7 3 (Some 9%nat) None 0 Blocked).
      - intros a [= <-]. by vm_compute.
      - by vm_compute. }
    eapply rtc_l.
    { apply (step_wait 7 4 (Some 9%nat) None 0 Blocked).
      - intros a [= <-]. by vm_compute.
      - by vm_compute. }
    eapply rtc_l.
    { apply (step_signal 7 0). by vm_compute. }
    apply rtc_refl.
  - exists c. split; [exact Hc|]. split; [exact Hiff|].
    revert Hc. vm_compute. by intros [= <-].
Defined.

Lemma wait_rejects_bad_mutex_witness :
  let w' := emitted waiting_world
              [EnterCancellationPoint; EnterCancellationPoint;
               SPINLOCK 7; SPINUNLOCK 7;
               LeaveCancellationPoint; LeaveCancellationPoint] in
  pthread_cond_wait_enter 2 (Some 7%nat) (Some 10%nat) None 0 waiting_world
  = Done (Returned EINVAL) w'
  ∧ pthread_cond_timedwait_enter 2 (Some 7%nat) (Some 10%nat)
      (Some (Timespec 5 0)) None 0 waiting_world
    = Done (Returned EINVAL) w'.
Proof.
  destruct (proj1 (wait_rejects_bad_mutex 2 7 (Some 10%nat) None 0 (Timespec 5 0)
                     waiting_world)
              (PthreadCond [1%nat] COND_FLAGS_INITED COND_TYPE_FAST (Some 77%nat)))
    as (c' & Hwait & Htimed & _ & _ & Hin & _).
  - reflexivity.
  - right. exists 10%nat. split; [reflexivity|]. split; by vm_compute.
  - destruct Hin as [-> _]; [by vm_compute|].
    split; [exact Hwait|]. apply Htimed. by vm_compute.
Defined.

Lemma pthread_cond_broadcast_wakes_all_witness :
  ∃ w', pthread_cond_broadcast (Some 7%nat) two_waiters_world = Done 0 w'
        ∧ conds w' !! 7%nat
          = Some (set_c_mutex None
                    (set_c_queue []
                       (PthreadCond [1; 3]%nat COND_FLAGS_INITED COND_TYPE_FAST
                                    (Some 77%nat))))
        ∧ (∀ x, x ∈ [1; 3]%nat →
                state (deref (threads w') x) = PS_RUNNING
                ∧ in_condq (threads w') x = false
                ∧ deref (threads w') x
                  = set_state PS_RUNNING
                      (unlinked (deref (threads two_waiters_world) x)))
        ∧ (∀ x, x ∉ [1; 3]%nat →
                deref (threads w') x = deref (threads two_waiters_world) x).
Proof.
  apply (pthread_cond_broadcast_wakes_all 7 two_waiters_world
           (PthreadCond [1; 3]%nat COND_FLAGS_INITED COND_TYPE_FAST (Some 77%nat))).
  - reflexivity.
  - reflexivity.
  - repeat constructor.
Defined.


Lemma placeholder_resolved_by_waits_only_witness :
  ∃ w',
    pthread_cond_wait_enter 1 (Some 7%nat) (Some 9%nat) (Some 0) 0 placeholder_world
    = Done Blocked w'
    ∧ conds w' !! 7%nat
      = Some (PthreadCond [1%nat] (Z.lor 0 COND_FLAGS_INITED) COND_TYPE_FAST
                          (mutexes placeholder_world !! 9%nat))
    ∧ in_condq (threads w') 1 = true
    ∧ state (deref (threads w') 1) = PS_COND_WAIT.
Proof.
  apply (placeholder_resolved_by_waits_only 1 7 (Some 9%nat) 0 0 (Timespec 0 0)
           placeholder_world).
  reflexivity.
Defined.

Lemma cond_queue_remove_idempotent_witness :
  ∃ c1 ths1,
    cond_queue_remove
      (PthreadCond [1; 3]%nat COND_FLAGS_INITED COND_TYPE_FAST (Some 77%nat)) 1
      (threads two_waiters_world)
    = Some (c1, ths1)
    ∧ c_queue c1 = [3%nat]
    ∧ cond_queue_remove c1 1 ths1 = Some (c1, ths1)
    ∧ (remove_self 7 1;; remove_self 7 1) two_waiters_world
      = remove_self 7 1 two_waiters_world.
Proof.
  pose proof (cond_queue_remove_idempotent
                (PthreadCond [1; 3]%nat COND_FLAGS_INITED COND_TYPE_FAST
                   (Some 77%nat)) 1 (threads two_waiters_world))
    as (_ & Htwice & Hself & _).
  eexists _, _. split; [by vm_compute|]. split; [reflexivity|].
  split; [|apply Hself]. apply Htwice. by vm_compute.
Defined.

(** * Further properties of the code *)

(** ** The representation invariant of the queue *)

Lemma mask_set_then_clear (f m : Z) :
  Z.land f m = 0 → Z.land (Z.lor f m) (Z.lnot m) = f.
Proof.
  intros H. apply Z.bits_inj'; intros n Hn.
  rewrite Z.land_spec, Z.lor_spec, Z.lnot_spec by done.
  apply (f_equal (λ z, Z.testbit z n)) in H.
  rewrite Z.land_spec, Z.bits_0 in H.
  by destruct (Z.testbit f n), (Z.testbit m n).
Qed.

Lemma in_condq_mark_ne ths t x : t ≠ x → in_condq (mark_in_condq ths t) x = in_condq ths x.
Proof. intros. unfold in_condq, mark_in_condq. by rewrite deref_insert_ne. Qed.

Lemma in_condq_clear_ne ths t x : t ≠ x → in_condq (clear_in_condq ths t) x = in_condq ths x.
Proof. intros. unfold in_condq. by rewrite deref_clear_ne. Qed.

Lemma queue_wf_unflagged c ths t :
  queue_wf c ths → in_condq ths t = false → t ∉ c_queue c.
Proof. intros [_ Hf] Ht Hin. apply Hf in Hin. congruence. Qed.

Lemma cond_queue_enq_wf cond ths pthread cond' ths' :
  queue_wf cond ths → in_condq ths pthread = false →
  cond_queue_enq cond pthread ths = Some (cond', ths') →
  queue_wf cond' ths' ∧ pthread ∈ c_queue cond'.
Proof.
  intros Hwf Hf He.
  pose proof (queue_wf_unflagged _ _ _ Hwf Hf) as Hnin.
  destruct Hwf as [Hnd Hfl].
  destruct (cond_queue_enq_shape _ _ _ _ _ He) as (l1 & l2 & -> & Hq & ->).
  rewrite Hq in Hnd, Hfl, Hnin. simpl.
  split; [split|].
  - apply NoDup_app in Hnd as (H1 & H12 & H2).
    apply NoDup_app. split; [done|]. split.
    + intros x Hx Hx'. apply elem_of_cons in Hx' as [->|Hx'].
      * apply Hnin. apply elem_of_app. by left.
      * by apply (H12 x).
    + constructor; [|done]. intros Hin. apply Hnin. apply elem_of_app. by right.
  - intros x Hx. destruct (decide (pthread = x)) as [->|Hne].
    + apply in_condq_mark.
    + rewrite in_condq_mark_ne by done. apply Hfl.
      apply elem_of_app in Hx as [Hx|Hx]; apply elem_of_app; [by left|].
      apply elem_of_cons in Hx as [Hx|Hx]; [congruence|by right].
  - rewrite elem_of_app, elem_of_cons. right. by left.
Qed.

Lemma cond_queue_deq_wf cond ths :
  queue_wf cond ths →
  let '(r, cond', ths') := cond_queue_deq cond ths in
  queue_wf cond' ths'
  ∧ (∀ t, r = Some t → (t ∉ c_queue cond') ∧ in_condq ths' t = false).
Proof.
  intros [Hnd Hfl]. unfold cond_queue_deq.
  destruct (cond_queue_deq_loop_spec (c_queue cond) ths) as [skipped H].
  destruct (cond_queue_deq_loop (c_queue cond) ths) as [[r q'] ths']. simpl in *.
  destruct H as (Hq & _ & _ & _ & Ht).
  rewrite Hq in Hnd, Hfl. apply NoDup_app in Hnd as (H1 & H12 & H2).
  split; [split; [done|]|].
  - simpl. intros x Hx. unfold in_condq. rewrite Ht, clear_unlinked_table.
    rewrite bool_decide_eq_false_2.
    + apply Hfl. apply elem_of_app. by right.
    + intros Hp. by apply (H12 x).
  - intros t ->. simpl in *. split.
    + apply H12. apply elem_of_app. right. apply list_elem_of_here.
    + unfold in_condq. rewrite Ht, clear_unlinked_table.
      rewrite bool_decide_eq_true_2
        by (apply elem_of_app; right; apply list_elem_of_here).
      by rewrite in_condq_unlinked.
Qed.

Lemma cond_queue_remove_wf cond ths pthread :
  queue_wf cond ths →
  (in_condq ths pthread = true → pthread ∈ c_queue cond) →
  ∃ cond' ths',
    cond_queue_remove cond pthread ths = Some (cond', ths')
    ∧ queue_wf cond' ths' ∧ pthread ∉ c_queue cond'.
Proof.
  intros Hwf Hl.
  destruct (proj2 (cond_queue_remove_is_Some cond pthread ths) Hl)
    as [[cond' ths'] Hr].
  exists cond', ths'. split; [done|].
  destruct (in_condq ths pthread) eqn:Hf.
  - destruct (cond_queue_remove_linked _ _ _ _ _ Hf Hr)
      as (l1 & l2 & Hq & Hn1 & -> & ->).
    destruct Hwf as [Hnd Hfl]. rewrite Hq in Hnd, Hfl. cbn.
    pose proof Hnd as Hnd'.
    apply NoDup_app in Hnd as (H1 & H12 & H2).
    apply NoDup_cons in H2 as [Hn2 H2].
    assert (pthread ∉ l1 ++ l2) as Hgone.
    { intros Hx. apply elem_of_app in Hx as [Hx|Hx]; done. }
    split; [split|done].
    + apply NoDup_app. split; [done|]. split; [|done].
      intros x Hx Hx2. apply (H12 x Hx). by apply list_elem_of_further.
    + intros x Hx. destruct (decide (pthread = x)) as [->|Hne]; [done|].
      rewrite in_condq_clear_ne by done. apply Hfl.
      apply elem_of_app in Hx as [Hx|Hx]; apply elem_of_app; [by left|].
      right. by apply list_elem_of_further.
  - rewrite (cond_queue_remove_unflagged _ _ _ Hf) in Hr. injection Hr as <- <-.
    split; [done|]. by eapply queue_wf_unflagged.
Qed.

(** X1.  The wait queue keeps its representation invariant (no thread
    linked twice, every linked thread flagged): [cond_queue_enq] of a thread
    whose flag is unset keeps it and links the thread, [cond_queue_deq]
    keeps it and hands out a thread that is linked no more and whose flag is
    unset, and [cond_queue_remove] of any thread that is linked if it
    carries the flag completes, keeps the invariant and leaves that thread
    not linked. *)
Theorem cond_queue_keeps_representation
    (cond : struct_pthread_cond) (ths : gmap nat struct_pthread) :
  queue_wf cond ths →
  (∀ pthread cond' ths',
     in_condq ths pthread = false →
     cond_queue_enq cond pthread ths = Some (cond', ths') →
     queue_wf cond' ths' ∧ pthread ∈ c_queue cond')
  ∧ (let '(r, cond', ths') := cond_queue_deq cond ths in
     queue_wf cond' ths'
     ∧ (∀ t, r = Some t → (t ∉ c_queue cond') ∧ in_condq ths' t = false))
  ∧ (∀ pthread,
       (in_condq ths pthread = true → pthread ∈ c_queue cond) →
       ∃ cond' ths',
         cond_queue_remove cond pthread ths = Some (cond', ths')
         ∧ queue_wf cond' ths' ∧ pthread ∉ c_queue cond').
Proof.
  intros Hwf. split; [|split].
  - intros pthread cond' ths'. by apply cond_queue_enq_wf.
  - by apply cond_queue_deq_wf.
  - intros pthread. by apply cond_queue_remove_wf.
Qed.

(** X2.  Enqueue followed by removal is a round trip: for a thread whose
    membership flag is unset, on a queue that satisfies the representation
    invariant, [cond_queue_enq] completes and [cond_queue_remove] of the
    same thread gives back the condition variable structure it started
    from and a thread table with the same contents. *)
Theorem cond_queue_enq_remove_round_trip
    (cond : struct_pthread_cond) (ths : gmap nat struct_pthread) (pthread : nat) :
  queue_wf cond ths →
  in_condq ths pthread = false →
  ∃ cond1 ths1 ths2,
    cond_queue_enq cond pthread ths = Some (cond1, ths1)
    ∧ cond_queue_remove cond1 pthread ths1 = Some (cond, ths2)
    ∧ ∀ x, deref ths2 x = deref ths x.
Proof.
  intros Hwf Hf.
  destruct (cond_queue_enq_total cond pthread ths) as [[cond1 ths1] He].
  destruct (cond_queue_enq_shape _ _ _ _ _ He) as (l1 & l2 & -> & Hq & ->).
  pose proof (queue_wf_unflagged _ _ _ Hwf Hf) as Hnin. rewrite Hq in Hnin.
  eexists _, _, _. split; [done|].
  unfold cond_queue_remove. rewrite in_condq_mark. simpl.
  rewrite TAILQ_REMOVE_middle
    by (intros Hin; apply Hnin; apply elem_of_app; by left).
  simpl. rewrite <- Hq.
  replace (set_c_queue (c_queue cond) (set_c_queue (l1 ++ pthread :: l2) cond))
    with cond by by destruct cond.
  split; [reflexivity|].
  intros x. rewrite deref_clear_cases. case_bool_decide as E.
  - subst x. unfold mark_in_condq. rewrite deref_insert.
    unfold unlinked, set_flags. simpl.
    unfold in_condq in Hf. apply negb_false_iff, Z.eqb_eq in Hf.
    rewrite mask_set_then_clear by done. by destruct (deref ths pthread).
  - unfold mark_in_condq. rewrite deref_insert_ne by congruence. done.
Qed.

(** ** Signal and broadcast on any queue *)

Lemma cond_queue_deq_loop_first_eligible (skipped : list nat) :
  ∀ ths t rest,
    Forall (λ x, eligible ths x = false) skipped →
    eligible ths t = true →
    cond_queue_deq_loop (skipped ++ t :: rest) ths
    = (Some t, rest, foldl clear_in_condq ths (skipped ++ [t])).
Proof.
  induction skipped as [|s skipped IH]; intros ths t rest Hs Ht; simpl.
  - by rewrite eligible_clear, Ht.
  - apply Forall_cons in Hs as [Hs1 Hs].
    rewrite eligible_clear, Hs1. apply IH.
    + eapply Forall_impl; [exact Hs|]. intros x Hx; simpl in *.
      by rewrite eligible_clear.
    + by rewrite eligible_clear.
Qed.

Lemma cond_queue_deq_loop_none_eligible (q : list nat) :
  ∀ ths,
    Forall (λ x, eligible ths x = false) q →
    cond_queue_deq_loop q ths = (None, [], foldl clear_in_condq ths q).
Proof.
  induction q as [|s q IH]; intros ths Hs; simpl; [done|].
  apply Forall_cons in Hs as [Hs1 Hs].
  rewrite eligible_clear, Hs1. apply IH.
  eapply Forall_impl; [exact Hs|]. intros x Hx; simpl in *.
  by rewrite eligible_clear.
Qed.

Lemma pthread_cond_signal_run l w c :
  conds w !! l = Some c → c_type c = COND_TYPE_FAST →
  pthread_cond_signal (Some l) w
  = let '(pthread, q, ths') := cond_queue_deq_loop (c_queue c) (threads w) in
    Done 0 (World (<[l := check_no_more_waiters (set_c_queue q c)]> (conds w))
                  (mutexes w)
                  (match pthread with
                   | Some t => PTHREAD_NEW_STATE ths' t PS_RUNNING
                   | None => ths'
                   end)
                  (errno w)
                  (trace w ++ [SigDefer; SPINLOCK l; SPINUNLOCK l; SigUndefer])).
Proof.
  intros Hc Hty. unfold pthread_cond_signal.
  run_m. rewrite Hc. run_m. unfold get_cond. cbn. rewrite Hc, Hty. run_m.
  unfold cond_queue_deq.
  destruct (cond_queue_deq_loop (c_queue c) (threads w)) as [[p q] ths'].
  run_m. by rewrite <- !app_assoc.
Qed.


(** X4.  A signal on a fast condition variable none of whose queued threads
    is eligible (in particular on an empty queue) returns 0 and wakes
    nobody: no thread changes its state; every queued thread is unlinked
    with its flag cleared, the queue ends empty and [c_mutex] null. *)
Theorem pthread_cond_signal_without_eligible_waiter
    (l : nat) (w : world) (c : struct_pthread_cond) :
  conds w !! l = Some c →
  c_type c = COND_TYPE_FAST →
  Forall (λ x, eligible (threads w) x = false) (c_queue c) →
  ∃ w', pthread_cond_signal (Some l) w = Done 0 w'
        ∧ conds w' !! l = Some (set_c_mutex None (set_c_queue [] c))
        ∧ (∀ x, state (deref (threads w') x) = state (deref (threads w) x))
        ∧ (∀ x, deref (threads w') x
                = if bool_decide (x ∈ c_queue c) then unlinked (deref (threads w) x)
                  else deref (threads w) x)
        ∧ trace w' = trace w ++ [SigDefer; SPINLOCK l; SPINUNLOCK l; SigUndefer].
Proof.
  intros Hc Hty Hs.
  rewrite (pthread_cond_signal_run l w c Hc Hty).
  rewrite (cond_queue_deq_loop_none_eligible (c_queue c)) by done.
  eexists. split; [done|]. cbn [conds threads trace].
  split; [by rewrite lookup_insert_eq|].
  split; [|split; [|done]].
  - intros x. rewrite clear_unlinked_table. by case_bool_decide.
  - intros x. apply clear_unlinked_table.
Qed.


(** ** A condition variable of an unknown type *)

(** X6.  On a live condition variable whose type is not the fast one, every
    operation takes its [default] branch: signal and broadcast return
    EINVAL between their deferral and lock brackets, wait (and timed wait
    with a well-formed deadline) on an initialised variable returns EINVAL
    between its cancellation and lock brackets, and none of them changes
    the variable, a thread or calls the mutex layer. *)
Theorem unknown_type_is_rejected
    (thread_run l : nat) (mutex : option nat) (malloc : option Z)
    (unlock_rv : Z) (ts : timespec) (w : world) (c : struct_pthread_cond) :
  conds w !! l = Some c →
  c_type c ≠ COND_TYPE_FAST →
  pthread_cond_signal (Some l) w
  = Done EINVAL (emitted w [SigDefer; SPINLOCK l; SPINUNLOCK l; SigUndefer])
  ∧ pthread_cond_broadcast (Some l) w
    = Done EINVAL (emitted w [SigDefer; SPINLOCK l; SPINUNLOCK l; SigUndefer])
  ∧ (cond_inited c →
     pthread_cond_wait_enter thread_run (Some l) mutex malloc unlock_rv w
     = Done (Returned EINVAL)
            (emitted w [EnterCancellationPoint; EnterCancellationPoint;
                        SPINLOCK l; SPINUNLOCK l;
                        LeaveCancellationPoint; LeaveCancellationPoint]))
  ∧ (cond_inited c → valid_deadline ts →
     pthread_cond_timedwait_enter thread_run (Some l) mutex (Some ts) malloc
       unlock_rv w
     = Done (Returned EINVAL)
            (emitted w [EnterCancellationPoint; EnterCancellationPoint;
                        SPINLOCK l; SPINUNLOCK l;
                        LeaveCancellationPoint; LeaveCancellationPoint])).
Proof.
  intros Hc Hty.
  assert (c_type c = COND_TYPE_MAX) as Hmax by (by destruct (c_type c)).
  split; [|split; [|split]].
  - unfold pthread_cond_signal. run_m. rewrite Hc. run_m.
    unfold get_cond. cbn. rewrite Hc, Hmax. run_m. by rewrite <- !app_assoc.
  - unfold pthread_cond_broadcast. run_m. rewrite Hc. run_m.
    unfold get_cond. cbn. rewrite Hc, Hmax. run_m. by rewrite <- !app_assoc.
  - intros Hi. rewrite (pthread_cond_wait_enter_live _ _ _ _ _ _ c) by done.
    unfold pthread_cond_wait_switch.
    unfold mbind at 1, M_bind at 1, get_cond. cbn [conds emitted].
    rewrite Hc, Hmax. by rewrite unlock_and_fail_run, emitted_emitted.
  - intros Hi Hv.
    rewrite (pthread_cond_timedwait_enter_live _ _ _ _ _ _ _ c) by done.
    unfold pthread_cond_timedwait_switch.
    unfold mbind at 1, M_bind at 1, get_cond. cbn [conds emitted].
    rewrite Hc, Hmax. by rewrite unlock_and_fail_run, emitted_emitted.
Qed.

(** ** Creation, reset and destruction *)

Lemma pthread_cond_init_unsupported l malloc w :
  pthread_cond_init (Some l) (Some (Some COND_TYPE_MAX)) malloc w = Done EINVAL w.
Proof. done. Qed.

Lemma pthread_cond_init_fast l attr malloc w :
  attr ≠ Some (Some COND_TYPE_MAX) →
  pthread_cond_init (Some l) attr malloc w
  = match malloc with
    | None => Done ENOMEM w
    | Some g =>
        Done 0 (World (<[l := PthreadCond [] (Z.lor g COND_FLAGS_INITED)
                                          COND_TYPE_FAST None]> (conds w))
                      (mutexes w) (threads w) (errno w) (trace w))
    end.
Proof.
  intros Hattr. unfold pthread_cond_init.
  destruct attr as [[[|]|]|]; try done; by destruct malloc.
Qed.

(** X7.  [pthread_cond_init] succeeds exactly when the handle pointer is not
    null, the attribute does not ask for another type than the fast one and
    the allocation succeeds.  On success the handle points to a fast
    variable with an empty queue, a null [c_mutex] and the initialised flag
    set, whatever the allocated memory and the handle held before, and
    nothing else changes.  On failure it returns EINVAL, or ENOMEM for a
    failed allocation, and changes nothing, the handle included. *)
Theorem pthread_cond_init_outcomes
    (cond : option nat) (cond_attr : option (option pthread_cond_type))
    (malloc : option Z) (w : world) :
  ∃ rval w',
    pthread_cond_init cond cond_attr malloc w = Done rval w'
    ∧ (rval = 0 ↔ cond ≠ None ∧ cond_attr ≠ Some (Some COND_TYPE_MAX)
                  ∧ malloc ≠ None)
    ∧ (rval ≠ 0 →
       w' = w
       ∧ rval = (if bool_decide (cond ≠ None
                                 ∧ cond_attr ≠ Some (Some COND_TYPE_MAX))
                 then ENOMEM else EINVAL))
    ∧ (rval = 0 →
       ∃ l c, cond = Some l ∧ conds w' !! l = Some c
              ∧ c_queue c = [] ∧ c_mutex c = None ∧ cond_inited c
              ∧ c_type c = COND_TYPE_FAST
              ∧ (∀ l', l' ≠ l → conds w' !! l' = conds w !! l')
              ∧ threads w' = threads w ∧ mutexes w' = mutexes w
              ∧ errno w' = errno w ∧ trace w' = trace w).
Proof.
  destruct cond as [l|].
  - destruct (decide (cond_attr = Some (Some COND_TYPE_MAX))) as [->|Hattr].
    + exists EINVAL, w. split; [done|]. split; [|split].
      * split; [done|]. by intros (_ & ? & _).
      * intros _. split; [done|]. rewrite bool_decide_eq_false_2; [done|].
        by intros [_ ?].
      * done.
    + rewrite (pthread_cond_init_fast l cond_attr malloc w Hattr).
      destruct malloc as [g|].
      * eexists _, _. split; [done|]. split; [done|]. split; [done|].
        intros _. eexists l, _. cbn [conds threads mutexes errno trace].
        split; [done|]. split; [apply lookup_insert_eq|].
        repeat split; try done.
        -- apply pthread_cond_init_inited.
        -- intros l' Hl'. by rewrite lookup_insert_ne.
      * exists ENOMEM, w. split; [done|]. split; [|split].
        -- split; [done|]. by intros (_ & _ & ?).
        -- intros _. split; [done|]. by rewrite bool_decide_eq_true_2.
        -- done.
  - exists EINVAL, w. split; [done|]. split; [|split].
    + split; [done|]. by intros (? & _).
    + intros _. split; [done|]. rewrite bool_decide_eq_false_2; [done|].
      by intros [? _].
    + done.
Qed.

Lemma cond_reinit_live l malloc w c :
  conds w !! l = Some c →
  _cond_reinit (Some l) malloc w
  = Done 0 (World (<[l := PthreadCond [] COND_FLAGS_INITED COND_TYPE_FAST None]>
                     (conds w))
                  (mutexes w) (threads w) (errno w) (trace w)).
Proof. intros Hc. unfold _cond_reinit. run_m. by rewrite Hc. Qed.

Lemma cond_reinit_placeholder l malloc w :
  conds w !! l = None →
  _cond_reinit (Some l) malloc w = pthread_cond_init (Some l) None malloc w.
Proof. intros Hc. unfold _cond_reinit. run_m. by rewrite Hc. Qed.



(** X9.  [_cond_reinit] of a live variable returns 0 and stores the fresh
    fast variable (empty queue, null [c_mutex], flags exactly the
    initialised flag) whatever the variable held, without calling the
    allocator; doing it twice is doing it once.  With a null handle pointer
    it returns EINVAL and changes nothing; on a placeholder it is
    [pthread_cond_init] with default attributes. *)
Theorem cond_reinit_outcomes
    (l : nat) (malloc malloc' : option Z) (w : world) :
  _cond_reinit None malloc w = Done EINVAL w
  ∧ (conds w !! l = None →
     _cond_reinit (Some l) malloc w = pthread_cond_init (Some l) None malloc w)
  ∧ (is_Some (conds w !! l) →
     ∃ w', _cond_reinit (Some l) malloc w = Done 0 w'
           ∧ conds w' = <[l := PthreadCond [] COND_FLAGS_INITED COND_TYPE_FAST None]>
                          (conds w)
           ∧ threads w' = threads w ∧ mutexes w' = mutexes w
           ∧ errno w' = errno w ∧ trace w' = trace w
           ∧ _cond_reinit (Some l) malloc' w' = Done 0 w').
Proof.
  split; [done|]. split; [apply cond_reinit_placeholder|].
  intros [c Hc]. eexists. split; [by apply (cond_reinit_live l malloc w c)|].
  cbn [conds threads mutexes errno trace]. repeat (split; [done|]).
  erewrite cond_reinit_live by (cbn; apply lookup_insert_eq).
  cbn. by rewrite insert_insert_eq.
Qed.

Lemma pthread_cond_destroy_live l w c :
  conds w !! l = Some c →
  pthread_cond_destroy (Some l) w
  = Done 0 (World (delete l (conds w)) (mutexes w) (threads w) (errno w)
                  (trace w ++ [SPINLOCK l])).
Proof. intros Hc. unfold pthread_cond_destroy. run_m. by rewrite Hc. Qed.

Lemma pthread_cond_destroy_placeholder l w :
  conds w !! l = None → pthread_cond_destroy (Some l) w = Done EINVAL w.
Proof. intros Hc. unfold pthread_cond_destroy. run_m. by rewrite Hc. Qed.

(** X10.  [pthread_cond_destroy] returns EINVAL and changes nothing for a
    null handle pointer or a null handle.  On a live variable it returns 0
    whatever the queue holds: it takes the structure lock, never releases
    it, frees the structure and nulls the handle, and touches no thread, so
    threads still queued stay as they are.  Afterwards another destroy, a
    signal or a broadcast on the handle returns EINVAL. *)
Theorem pthread_cond_destroy_outcomes (l : nat) (w : world) :
  pthread_cond_destroy None w = Done EINVAL w
  ∧ (conds w !! l = None → pthread_cond_destroy (Some l) w = Done EINVAL w)
  ∧ (is_Some (conds w !! l) →
     ∃ w', pthread_cond_destroy (Some l) w = Done 0 w'
           ∧ conds w' = delete l (conds w)
           ∧ threads w' = threads w ∧ mutexes w' = mutexes w
           ∧ errno w' = errno w
           ∧ trace w' = trace w ++ [SPINLOCK l]
           ∧ pthread_cond_destroy (Some l) w' = Done EINVAL w'
           ∧ pthread_cond_signal (Some l) w' = Done EINVAL w'
           ∧ pthread_cond_broadcast (Some l) w' = Done EINVAL w').
Proof.
  split; [done|]. split; [apply pthread_cond_destroy_placeholder|].
  intros [c Hc]. eexists.
  split; [by apply (pthread_cond_destroy_live l w c)|].
  cbn [conds threads mutexes errno trace]. repeat (split; [done|]).
  split; [|split].
  - apply pthread_cond_destroy_placeholder. cbn. apply lookup_delete_eq.
  - apply pthread_cond_signal_placeholder. cbn. apply lookup_delete_eq.
  - apply pthread_cond_broadcast_placeholder. cbn. apply lookup_delete_eq.
Qed.

(** X11.  Creation followed by destruction is a round trip on a
    placeholder: after a successful [pthread_cond_init] and a
    [pthread_cond_destroy] the handle is null again and the world is the
    one before, but for the recorded lock. *)
Theorem pthread_cond_init_destroy_round_trip
    (l : nat) (cond_attr : option (option pthread_cond_type)) (g : Z) (w : world) :
  conds w !! l = None →
  cond_attr ≠ Some (Some COND_TYPE_MAX) →
  (pthread_cond_init (Some l) cond_attr (Some g);; pthread_cond_destroy (Some l)) w
  = Done 0 (emitted w [SPINLOCK l]).
Proof.
  intros Hc Hattr. unfold mbind, M_bind.
  rewrite (pthread_cond_init_fast l cond_attr (Some g) w Hattr).
  erewrite pthread_cond_destroy_live by (cbn; apply lookup_insert_eq).
  cbn. unfold emitted. by rewrite delete_insert_eq, delete_id.
Qed.

(** ** The accepted wait: blocking and rolling back *)

Lemma accepted_mutex_test w c a :
  c_mutex c = None ∨ c_mutex c = mutexes w !! a →
  bool_decide (c_mutex c ≠ None) && bool_decide (c_mutex c ≠ mutexes w !! a) = false.
Proof.
  intros [Hm|Hm].
  - rewrite (bool_decide_eq_false_2 (c_mutex c ≠ None)); [done|]. by intros ?.
  - rewrite (bool_decide_eq_false_2 (c_mutex c ≠ mutexes w !! a));
      [apply andb_false_r|]. by intros ?.
Qed.

(** Up to the call of [_mutex_cv_unlock], an accepted wait has linked the
    caller into the queue, bound the variable to the mutex and reset the
    caller's wake-up bookkeeping. *)
Lemma pthread_cond_wait_switch_accepts t l a urv w c :
  conds w !! l = Some c → c_type c = COND_TYPE_FAST →
  c_mutex c = None ∨ c_mutex c = mutexes w !! a →
  ∃ l1 l2,
    c_queue c = l1 ++ l2
    ∧ pthread_cond_wait_switch t l (Some a) urv w
      = unlock_and_block t l a urv
          (World (<[l := set_c_mutex (mutexes w !! a)
                           (set_c_queue (l1 ++ t :: l2) c)]> (conds w))
                 (mutexes w)
                 (<[t := queued_thread (deref (threads w) t)
                           (no_deadline (deref (threads w) t))]> (threads w))
                 (errno w) (trace w)).
Proof.
  intros Hc Hty Hm. unfold pthread_cond_wait_switch.
  unfold mbind at 1, M_bind at 1, get_cond. rewrite Hc, Hty.
  unfold mbind at 1, M_bind at 1, load_mutex.
  rewrite (accepted_mutex_test w c a Hm).
  unfold enq_self. run_m. unfold get_cond. cbn. rewrite Hc.
  match goal with |- context [cond_queue_enq c t ?ths] =>
    destruct (cond_queue_enq_total c t ths) as [[c1 ths1] He]; rewrite He;
    destruct (cond_queue_enq_shape _ _ _ _ _ He) as (l1 & l2 & -> & Hq & ->) end.
  exists l1, l2. split; [done|].
  cbn. rewrite lookup_insert_eq. unfold mark_in_condq.
  repeat (rewrite ?deref_insert, ?insert_insert_eq; cbn).
  reflexivity.
Qed.

Lemma pthread_cond_timedwait_switch_accepts t l a ts urv w c :
  conds w !! l = Some c → c_type c = COND_TYPE_FAST →
  c_mutex c = None ∨ c_mutex c = mutexes w !! a →
  ∃ l1 l2,
    c_queue c = l1 ++ l2
    ∧ pthread_cond_timedwait_switch t l (Some a) ts urv w
      = unlock_and_block t l a urv
          (World (<[l := set_c_mutex (mutexes w !! a)
                           (set_c_queue (l1 ++ t :: l2) c)]> (conds w))
                 (mutexes w)
                 (<[t := queued_thread (deref (threads w) t)
                           (Timespec (tv_sec ts) (tv_nsec ts))]> (threads w))
                 (errno w) (trace w)).
Proof.
  intros Hc Hty Hm. unfold pthread_cond_timedwait_switch.
  unfold mbind at 1, M_bind at 1, get_cond. rewrite Hc, Hty.
  unfold mbind at 1, M_bind at 1, load_mutex.
  rewrite (accepted_mutex_test w c a Hm).
  unfold enq_self. run_m. unfold get_cond. cbn. rewrite Hc.
  match goal with |- context [cond_queue_enq c t ?ths] =>
    destruct (cond_queue_enq_total c t ths) as [[c1 ths1] He]; rewrite He;
    destruct (cond_queue_enq_shape _ _ _ _ _ He) as (l1 & l2 & -> & Hq & ->) end.
  exists l1, l2. split; [done|].
  cbn. rewrite lookup_insert_eq. unfold mark_in_condq.
  repeat (rewrite ?deref_insert, ?insert_insert_eq; cbn).
  reflexivity.
Qed.

Lemma unlock_and_block_blocks t l a w :
  unlock_and_block t l a 0 w
  = Done Blocked
      (World (conds w) (mutexes w)
             (<[t := set_state PS_COND_WAIT (deref (threads w) t)]> (threads w))
             (errno w)
             (trace w ++ [MutexCvUnlock a; SchedStateUnlock PS_COND_WAIT l])).
Proof. unfold unlock_and_block. run_m. by rewrite <- !app_assoc. Qed.

Lemma unlock_and_block_rolls_back t l a urv w c c' ths' :
  urv ≠ 0 → conds w !! l = Some c →
  cond_queue_remove c t (threads w) = Some (c', ths') →
  unlock_and_block t l a urv w
  = Done (Returned urv)
      (World (<[l := check_no_more_waiters c']> (conds w))
             (mutexes w) ths' (errno w)
             (trace w ++ [MutexCvUnlock a; SPINUNLOCK l;
                          LeaveCancellationPoint; LeaveCancellationPoint])).
Proof.
  intros Hurv Hc Hr. unfold unlock_and_block.
  unfold mbind at 1, M_bind at 1, _mutex_cv_unlock.
  unfold mbind at 1, M_bind at 1. rewrite emit_run.
  unfold mret at 1, M_ret at 1.
  apply Z.eqb_neq in Hurv. rewrite Hurv. cbn [negb].
  unfold mbind at 1, M_bind at 1.
  erewrite remove_self_run;
    [|cbn [conds emitted]; exact Hc|cbn [threads emitted]; exact Hr].
  run_m. by rewrite <- !app_assoc.
Qed.

Lemma in_condq_queued ths t s wk : in_condq (<[t := queued_thread s wk]> ths) t = true.
Proof. unfold in_condq. rewrite deref_insert. cbn. by rewrite mask_set_test. Qed.

Lemma eligible_queued ths t s wk f :
  (∀ x, timeout (f x) = timeout x ∧ interrupted (f x) = interrupted x) →
  eligible (<[t := f (queued_thread s wk)]> ths) t = true.
Proof.
  intros Hf. unfold eligible. rewrite deref_insert.
  by destruct (Hf (queued_thread s wk)) as [-> ->].
Qed.

(** X12.  An accepted wait that the mutex layer lets unlock blocks.  On an
    initialised fast variable that is unbound or bound to the caller's
    mutex, [pthread_cond_wait] with a successful [_mutex_cv_unlock] leaves
    the caller linked into the queue, the variable bound to the mutex, and
    the caller in state [PS_COND_WAIT] with its membership flag set,
    [timeout] and [interrupted] reset and [tv_sec] of its wake-up time at
    -1; [pthread_cond_timedwait] with a well-formed deadline does the same
    with the deadline as wake-up time.  No other thread changes, and the
    mutex is unlocked once, with the structure lock held, before the
    scheduler blocks the caller and releases that lock. *)
Theorem accepted_wait_blocks_queued_and_bound
    (thread_run l a : nat) (malloc : option Z) (ts : timespec) (w : world)
    (c : struct_pthread_cond) :
  conds w !! l = Some c →
  cond_inited c →
  c_type c = COND_TYPE_FAST →
  c_mutex c = None ∨ c_mutex c = mutexes w !! a →
  let s := deref (threads w) thread_run in
  let blocked wk l1 l2 :=
    World (<[l := set_c_mutex (mutexes w !! a)
                    (set_c_queue (l1 ++ thread_run :: l2) c)]> (conds w))
          (mutexes w)
          (<[thread_run := set_state PS_COND_WAIT (queued_thread s wk)]> (threads w))
          (errno w)
          (trace w ++ [EnterCancellationPoint; EnterCancellationPoint; SPINLOCK l;
                       MutexCvUnlock a; SchedStateUnlock PS_COND_WAIT l]) in
  (∃ l1 l2,
     c_queue c = l1 ++ l2
     ∧ pthread_cond_wait_enter thread_run (Some l) (Some a) malloc 0 w
       = Done Blocked (blocked (no_deadline s) l1 l2))
  ∧ (valid_deadline ts →
     ∃ l1 l2,
       c_queue c = l1 ++ l2
       ∧ pthread_cond_timedwait_enter thread_run (Some l) (Some a) (Some ts)
           malloc 0 w
         = Done Blocked (blocked ts l1 l2)).
Proof.
  intros Hc Hi Hty Hm s blocked. split; [|intros Hv].
  - rewrite (pthread_cond_wait_enter_live _ _ _ _ _ _ c) by done.
    destruct (pthread_cond_wait_switch_accepts thread_run l a 0
                (emitted w [EnterCancellationPoint; EnterCancellationPoint;
                            SPINLOCK l]) c Hc Hty Hm)
      as (l1 & l2 & Hq & ->).
    exists l1, l2. split; [done|].
    rewrite unlock_and_block_blocks. cbn.
    by rewrite deref_insert, insert_insert_eq, <- !app_assoc.
  - rewrite (pthread_cond_timedwait_enter_live _ _ _ _ _ _ _ c) by done.
    destruct (pthread_cond_timedwait_switch_accepts thread_run l a ts 0
                (emitted w [EnterCancellationPoint; EnterCancellationPoint;
                            SPINLOCK l]) c Hc Hty Hm)
      as (l1 & l2 & Hq & ->).
    exists l1, l2. split; [done|].
    rewrite unlock_and_block_blocks. cbn.
    rewrite deref_insert, insert_insert_eq, <- !app_assoc. by destruct ts.
Qed.

Lemma rolled_back_cond c m l1 l2 t :
  cv_invariant c → c_queue c = l1 ++ l2 →
  c_mutex c = None ∨ c_mutex c = m →
  t ∉ l1 →
  check_no_more_waiters
    (set_c_queue (l1 ++ l2)
       (set_c_mutex m (set_c_queue (l1 ++ t :: l2) c)))
  = c.
Proof.
  intros Hinv Hq Hm Ht.
  unfold check_no_more_waiters, cv_invariant in *.
  destruct c as [q fl ty cm]; cbn in *. subst q.
  destruct (l1 ++ l2) as [|x q] eqn:E; cbn.
  - unfold set_c_mutex; cbn. f_equal. symmetry. by apply Hinv.
  - unfold set_c_queue, set_c_mutex; cbn. f_equal.
    destruct Hm as [Hm|Hm]; [|done]. by apply Hinv in Hm.
Qed.

Lemma rolled_back_threads ths t s wk :
  Z.land (flags s) PTHREAD_FLAGS_IN_CONDQ = 0 →
  clear_in_condq (<[t := queued_thread s wk]> ths) t
  = <[t := Pthread (state s) (flags s) (active_priority s) 0 0 wk (continuation s)]> ths.
Proof.
  intros Hf. unfold clear_in_condq. rewrite deref_insert, insert_insert_eq.
  unfold queued_thread, set_flags; cbn. by rewrite mask_set_then_clear.
Qed.

(** X13.  An accepted wait whose mutex cannot be unlocked rolls back.  On an
    initialised fast variable that satisfies the invariants (bound exactly
    when some thread is queued; no thread linked twice, linked threads
    flagged), for a caller whose membership flag is unset, when
    [_mutex_cv_unlock] answers a non-zero status [pthread_cond_wait]
    returns that status without blocking: the condition variable structure
    is exactly what it was, the caller is not linked and keeps its state
    and flags, only its [timeout], [interrupted] and wake-up time were
    reset, and the mutex layer was called once.  [pthread_cond_timedwait]
    with a well-formed deadline does the same. *)
Theorem wait_rolls_back_when_unlock_fails
    (thread_run l a : nat) (malloc : option Z) (unlock_rv : Z) (ts : timespec)
    (w : world) (c : struct_pthread_cond) :
  conds w !! l = Some c →
  cond_inited c →
  c_type c = COND_TYPE_FAST →
  cv_invariant c →
  queue_wf c (threads w) →
  in_condq (threads w) thread_run = false →
  c_mutex c = None ∨ c_mutex c = mutexes w !! a →
  unlock_rv ≠ 0 →
  let s := deref (threads w) thread_run in
  let rolled wk :=
    World (conds w) (mutexes w)
          (<[thread_run := Pthread (state s) (flags s) (active_priority s) 0 0 wk
                                   (continuation s)]> (threads w))
          (errno w)
          (trace w ++ [EnterCancellationPoint; EnterCancellationPoint; SPINLOCK l;
                       MutexCvUnlock a; SPINUNLOCK l;
                       LeaveCancellationPoint; LeaveCancellationPoint]) in
  pthread_cond_wait_enter thread_run (Some l) (Some a) malloc unlock_rv w
  = Done (Returned unlock_rv) (rolled (no_deadline s))
  ∧ (valid_deadline ts →
     pthread_cond_timedwait_enter thread_run (Some l) (Some a) (Some ts) malloc
       unlock_rv w
     = Done (Returned unlock_rv) (rolled ts)).
Proof.
  intros Hc Hi Hty Hinv Hwf Hf Hm Hurv s rolled.
  pose proof (queue_wf_unflagged _ _ _ Hwf Hf) as Hnin.
  assert (Z.land (flags s) PTHREAD_FLAGS_IN_CONDQ = 0) as Hflag.
  { unfold in_condq in Hf. by apply negb_false_iff, Z.eqb_eq in Hf. }
  split; [|intros Hv].
  - rewrite (pthread_cond_wait_enter_live _ _ _ _ _ _ c) by done.
    destruct (pthread_cond_wait_switch_accepts thread_run l a unlock_rv
                (emitted w [EnterCancellationPoint; EnterCancellationPoint;
                            SPINLOCK l]) c Hc Hty Hm)
      as (l1 & l2 & Hq & ->).
    assert (thread_run ∉ l1) as Hn1.
    { intros Hin. apply Hnin. rewrite Hq. apply elem_of_app. by left. }
    erewrite unlock_and_block_rolls_back;
      [|done|cbn [conds]; apply lookup_insert_eq
       |apply (cond_queue_remove_middle _ _ _ l1 l2);
        [cbn [threads]; apply in_condq_queued|done|done]].
    cbn. rewrite rolled_back_cond by done.
    rewrite insert_insert_eq, insert_id by done.
    rewrite rolled_back_threads by done. by rewrite <- !app_assoc.
  - rewrite (pthread_cond_timedwait_enter_live _ _ _ _ _ _ _ c) by done.
    destruct (pthread_cond_timedwait_switch_accepts thread_run l a ts unlock_rv
                (emitted w [EnterCancellationPoint; EnterCancellationPoint;
                            SPINLOCK l]) c Hc Hty Hm)
      as (l1 & l2 & Hq & ->).
    assert (thread_run ∉ l1) as Hn1.
    { intros Hin. apply Hnin. rewrite Hq. apply elem_of_app. by left. }
    erewrite unlock_and_block_rolls_back;
      [|done|cbn [conds]; apply lookup_insert_eq
       |apply (cond_queue_remove_middle _ _ _ l1 l2);
        [cbn [threads]; apply in_condq_queued|done|done]].
    cbn. rewrite rolled_back_cond by done.
    rewrite insert_insert_eq, insert_id by done.
    rewrite rolled_back_threads by done. rewrite <- !app_assoc.
    by destruct ts.
Qed.

Lemma pthread_cond_wait_enter_blocks t l a malloc w c :
  conds w !! l = Some c → cond_inited c → c_type c = COND_TYPE_FAST →
  c_mutex c = None ∨ c_mutex c = mutexes w !! a →
  ∃ l1 l2,
    c_queue c = l1 ++ l2
    ∧ pthread_cond_wait_enter t (Some l) (Some a) malloc 0 w
      = Done Blocked
          (World (<[l := set_c_mutex (mutexes w !! a)
                           (set_c_queue (l1 ++ t :: l2) c)]> (conds w))
                 (mutexes w)
                 (<[t := set_state PS_COND_WAIT
                           (queued_thread (deref (threads w) t)
                              (no_deadline (deref (threads w) t)))]> (threads w))
                 (errno w)
                 (trace w ++ [EnterCancellationPoint; EnterCancellationPoint;
                              SPINLOCK l; MutexCvUnlock a;
                              SchedStateUnlock PS_COND_WAIT l])).
Proof.
  intros Hc Hi Hty Hm.
  rewrite (pthread_cond_wait_enter_live _ _ _ _ _ _ c) by done.
  destruct (pthread_cond_wait_switch_accepts t l a 0
              (emitted w [EnterCancellationPoint; EnterCancellationPoint;
                          SPINLOCK l]) c Hc Hty Hm)
    as (l1 & l2 & Hq & ->).
  exists l1, l2. split; [done|].
  rewrite unlock_and_block_blocks. cbn.
  by rewrite deref_insert, insert_insert_eq, <- !app_assoc.
Qed.

(** ** A blocked waiter and the calls that wake it *)

(** X14.  No wake-up is lost to a broadcast.  After an accepted
    [pthread_cond_wait] has blocked its caller, a [pthread_cond_broadcast]
    on the variable returns 0 and leaves the caller [PS_RUNNING] with its
    membership flag cleared; the queue is empty and the variable is bound to
    no mutex. *)
Theorem broadcast_wakes_blocked_waiter
    (thread_run l a : nat) (malloc : option Z) (w : world)
    (c : struct_pthread_cond) :
  conds w !! l = Some c →
  cond_inited c →
  c_type c = COND_TYPE_FAST →
  c_mutex c = None ∨ c_mutex c = mutexes w !! a →
  ∃ w1 w2,
    pthread_cond_wait_enter thread_run (Some l) (Some a) malloc 0 w
    = Done Blocked w1
    ∧ pthread_cond_broadcast (Some l) w1 = Done 0 w2
    ∧ state (deref (threads w2) thread_run) = PS_RUNNING
    ∧ in_condq (threads w2) thread_run = false
    ∧ conds w2 !! l = Some (set_c_mutex None (set_c_queue [] c)).
Proof.
  intros Hc Hi Hty Hm.
  destruct (pthread_cond_wait_enter_blocks thread_run l a malloc w c Hc Hi Hty Hm)
    as (l1 & l2 & Hq & Hrun).
  eexists _, _. split; [exact Hrun|].
  erewrite pthread_cond_broadcast_run;
    [|cbn [conds]; apply lookup_insert_eq|done].
  split; [reflexivity|]. cbn [threads conds c_queue set_c_mutex set_c_queue].
  assert (thread_run ∈ l1 ++ thread_run :: l2) as Hin.
  { apply elem_of_app. right. apply list_elem_of_here. }
  unfold in_condq. rewrite !wake_all_deref, !bool_decide_eq_true_2 by done.
  rewrite (eligible_queued _ _ _ _ (set_state PS_COND_WAIT)) by done.
  split; [done|]. split.
  - cbn. by rewrite mask_clear_test.
  - rewrite lookup_insert_eq. by destruct c.
Qed.

(** X15.  A wait, a signal and the rest of the wait leave an idle variable
    as they found it.  On an initialised fast variable with no waiter and no
    mutex bound, [pthread_cond_wait] with a successful unlock blocks the
    caller, a [pthread_cond_signal] then returns 0 and wakes it, and the
    rest of the wait returns the status of [_mutex_cv_lock].  Afterwards
    the condition variable structure is what it was before the wait; the
    caller is [PS_RUNNING], not linked and its membership flag is unset;
    the mutex was unlocked once before the caller blocked and locked once
    after it was woken. *)
Theorem wait_signal_resume_cycle
    (thread_run l a : nat) (malloc : option Z) (lock_rv : Z) (w : world)
    (c : struct_pthread_cond) :
  conds w !! l = Some c →
  cond_inited c →
  c_type c = COND_TYPE_FAST →
  c_queue c = [] →
  c_mutex c = None →
  ∃ w1 w2 w3,
    pthread_cond_wait_enter thread_run (Some l) (Some a) malloc 0 w
    = Done Blocked w1
    ∧ queue_at l w1 = [thread_run]
    ∧ pthread_cond_signal (Some l) w1 = Done 0 w2
    ∧ state (deref (threads w2) thread_run) = PS_RUNNING
    ∧ pthread_cond_wait_resume thread_run l a lock_rv w2 = Done lock_rv w3
    ∧ conds w3 = conds w
    ∧ state (deref (threads w3) thread_run) = PS_RUNNING
    ∧ in_condq (threads w3) thread_run = false
    ∧ (∀ x, x ≠ thread_run → deref (threads w3) x = deref (threads w) x)
    ∧ trace w3
      = trace w ++ [EnterCancellationPoint; EnterCancellationPoint; SPINLOCK l;
                    MutexCvUnlock a; SchedStateUnlock PS_COND_WAIT l;
                    SigDefer; SPINLOCK l; SPINUNLOCK l; SigUndefer;
                    MutexCvLock a;
                    LeaveCancellationPoint; LeaveCancellationPoint].
Proof.
  intros Hc Hi Hty Hq0 Hm0.
  destruct (pthread_cond_wait_enter_blocks thread_run l a malloc w c Hc Hi Hty
              (or_introl Hm0))
    as (l1 & l2 & Hq & Hrun).
  rewrite Hq0 in Hq. symmetry in Hq. apply app_eq_nil in Hq as [-> ->].
  eexists _, _, _. split; [exact Hrun|]. split.
  { unfold queue_at. cbn [conds]. by rewrite lookup_insert_eq. }
  erewrite pthread_cond_signal_run;
    [|cbn [conds]; apply lookup_insert_eq|done].
  cbn [threads conds c_queue set_c_mutex set_c_queue app].
  rewrite (cond_queue_deq_loop_first_eligible [] _ thread_run [])
    by (done || by apply (eligible_queued _ _ _ _ (set_state PS_COND_WAIT))).
  split; [reflexivity|]. cbn [app foldl threads].
  unfold PTHREAD_NEW_STATE, clear_in_condq.
  rewrite !deref_insert, !insert_insert_eq.
  split; [done|].
  unfold pthread_cond_wait_resume. run_m. rewrite deref_insert. cbn.
  split; [reflexivity|]. cbn [conds threads trace].
  rewrite deref_insert.
  split.
  { apply insert_id. rewrite Hc. f_equal.
    destruct c; cbn in *. by subst. }
  split; [done|]. split.
  { unfold in_condq. rewrite deref_insert. cbn. by rewrite mask_clear_test. }
  split.
  { intros x Hx. by rewrite deref_insert_ne. }
  by rewrite <- !app_assoc.
Qed.

(** ** The rest of a wait *)

Lemma wait_epilogue_run thread_run i rval w :
  wait_epilogue thread_run i rval w
  = Done rval
      (emitted w ((if negb (i =? 0) then continuation_call (threads w) thread_run
                   else [])
                  ++ [LeaveCancellationPoint; LeaveCancellationPoint])).
Proof.
  unfold wait_epilogue, continuation_call. run_m.
  destruct (negb (i =? 0)); [destruct (continuation _)|];
    run_m; by rewrite <- ?app_assoc.
Qed.

Lemma continuation_call_ext ths ths' t :
  continuation (deref ths' t) = continuation (deref ths t) →
  continuation_call ths' t = continuation_call ths t.
Proof. unfold continuation_call. by intros ->. Qed.

(** X16.  A waiter rescheduled with neither its [timeout] nor its
    [interrupted] flag set only reacquires the mutex: the rest of
    [pthread_cond_wait], and of [pthread_cond_timedwait], calls
    [_mutex_cv_lock], leaves both cancellation points and returns the
    status of that call.  The condition variable, the threads and [errno]
    are not touched, the structure lock is not taken and no continuation
    runs.  [pthread_cond_wait] does not read [timeout]: it does the same
    with that flag set. *)
Theorem woken_waiter_only_relocks
    (thread_run l a : nat) (lock_rv : Z) (w : world) :
  interrupted (deref (threads w) thread_run) = 0 →
  pthread_cond_wait_resume thread_run l a lock_rv w
  = Done lock_rv
      (emitted w [MutexCvLock a; LeaveCancellationPoint; LeaveCancellationPoint])
  ∧ (timeout (deref (threads w) thread_run) = 0 →
     pthread_cond_timedwait_resume thread_run l a lock_rv w
     = Done lock_rv
         (emitted w [MutexCvLock a; LeaveCancellationPoint;
                     LeaveCancellationPoint])).
Proof.
  intros Hi. split; [|intros Ht].
  - unfold pthread_cond_wait_resume. run_m. rewrite Hi. cbn.
    by rewrite <- !app_assoc.
  - unfold pthread_cond_timedwait_resume. run_m. rewrite Hi, Ht. cbn.
    by rewrite <- !app_assoc.
Qed.

(** X17.  An interrupted waiter cleans up, reacquires the mutex and only
    then runs its continuation.  Rescheduled with [interrupted] set, the
    rest of [pthread_cond_wait] takes the structure lock, removes the
    caller from the queue, clears [c_mutex] if the queue is empty, releases
    the lock, calls [_mutex_cv_lock], then calls the caller's continuation
    if it has one, and returns the status of [_mutex_cv_lock]; the rest of
    [pthread_cond_timedwait] does the same but returns ETIMEDOUT whatever
    that status was.  The caller is as its blocked phase leaves it (linked,
    or unlinked with its flag cleared) on a well-formed queue.  Afterwards
    the caller is neither linked nor flagged, the other waiters are queued
    in the order they were, [c_mutex] is NULL if none is left and unchanged
    otherwise, nothing else of the structure or of any other thread has
    changed, and the queue is still well formed. *)
Theorem interrupted_waiter_cleans_up_then_relocks
    (thread_run l a : nat) (lock_rv : Z) (w : world) (c : struct_pthread_cond) :
  conds w !! l = Some c →
  interrupted (deref (threads w) thread_run) ≠ 0 →
  queue_wf c (threads w) →
  (in_condq (threads w) thread_run = true → thread_run ∈ c_queue c) →
  ∃ c' ths',
    let after :=
      World (<[l := c']> (conds w)) (mutexes w) ths' (errno w)
            (trace w ++ [SPINLOCK l; SPINUNLOCK l; MutexCvLock a]
                     ++ continuation_call (threads w) thread_run
                     ++ [LeaveCancellationPoint; LeaveCancellationPoint]) in
    pthread_cond_wait_resume thread_run l a lock_rv w = Done lock_rv after
    ∧ pthread_cond_timedwait_resume thread_run l a lock_rv w
      = Done ETIMEDOUT after
    ∧ (in_condq (threads w) thread_run = true →
       ∃ l1 l2, c_queue c = l1 ++ thread_run :: l2 ∧ (thread_run ∉ l1)
                ∧ c_queue c' = l1 ++ l2)
    ∧ (in_condq (threads w) thread_run = false → c_queue c' = c_queue c)
    ∧ (c_queue c' = [] → c_mutex c' = None)
    ∧ (c_queue c' ≠ [] → c_mutex c' = c_mutex c)
    ∧ c_flags c' = c_flags c ∧ c_type c' = c_type c
    ∧ (thread_run ∉ c_queue c')
    ∧ in_condq ths' thread_run = false
    ∧ deref ths' thread_run
      = (if in_condq (threads w) thread_run
         then unlinked (deref (threads w) thread_run)
         else deref (threads w) thread_run)
    ∧ (∀ x, x ≠ thread_run → deref ths' x = deref (threads w) x)
    ∧ queue_wf c' ths'.
Proof.
  intros Hc Hi Hwf Hl.
  destruct (remove_self_frame l thread_run (emitted w [SPINLOCK l]) c Hc Hl)
    as (c' & ths' & Hrun & Hin & Hout & Hm0 & Hm1 & Hfl & Hty & Hf & Hme & Hoth).
  cbn [threads emitted conds mutexes errno trace] in *.
  exists c', ths'.
  assert ((interrupted (deref (threads w) thread_run) =? 0) = false) as Hib
    by by apply Z.eqb_neq.
  assert (continuation_call ths' thread_run
          = continuation_call (threads w) thread_run) as Hcont.
  { apply continuation_call_ext. rewrite Hme. by destruct (in_condq _ _). }
  assert ((thread_run ∉ c_queue c') ∧ queue_wf c' ths') as [Hgone Hwf'].
  { destruct Hwf as [Hnd Hflg].
    destruct (in_condq (threads w) thread_run) eqn:Hf0.
    - destruct (Hin eq_refl) as (l1 & l2 & Hq & Hn1 & Hq').
      rewrite Hq in Hnd, Hflg. rewrite Hq'.
      apply NoDup_app in Hnd as (H1 & H12 & H2).
      apply NoDup_cons in H2 as [Hn2 H2].
      assert (thread_run ∉ l1 ++ l2) as Hgone.
      { intros Hx. apply elem_of_app in Hx as [Hx|Hx]; done. }
      split; [done|]. split.
      + rewrite Hq'. apply NoDup_app. split; [done|]. split; [|done].
        intros x Hx Hx2. apply (H12 x Hx). by apply list_elem_of_further.
      + rewrite Hq'. intros x Hx.
        assert (x ≠ thread_run) as Hne by (intros ->; done).
        rewrite (in_condq_ext (threads w)) by by apply Hoth.
        apply Hflg. apply elem_of_app in Hx as [Hx|Hx]; apply elem_of_app;
          [by left|]. right. by apply list_elem_of_further.
    - rewrite (Hout eq_refl).
      assert (thread_run ∉ c_queue c) as Hn.
      { intros Hx. apply Hflg in Hx. congruence. }
      split; [done|]. split; [by rewrite (Hout eq_refl)|].
      rewrite (Hout eq_refl). intros x Hx.
      assert (x ≠ thread_run) as Hne by (intros ->; done).
      rewrite (in_condq_ext (threads w)) by by apply Hoth.
      by apply Hflg. }
  cbv zeta.
  split; [|split; [|split; [|split; [|split; [|split; [|split; [|split;
    [|split; [|split; [|split; [|split]]]]]]]]]]]; try done.
  - unfold pthread_cond_wait_resume.
    unfold mbind at 1, M_bind at 1, get_threads at 1. rewrite Hib. cbn [negb].
    unfold mbind at 1 2 3 4, M_bind at 1 2 3 4, _SPINLOCK, _SPINUNLOCK,
      _mutex_cv_lock.
    rewrite emit_run, Hrun.
    unfold mbind, M_bind, mret, M_ret. rewrite !emit_run.
    rewrite wait_epilogue_run.
    cbn [negb Z.eqb threads emitted conds mutexes errno trace].
    rewrite Hcont. unfold emitted; cbn. by rewrite <- !app_assoc.
  - unfold pthread_cond_timedwait_resume.
    unfold mbind at 1, M_bind at 1, get_threads at 1. rewrite Hib, andb_false_r.
    unfold mbind at 1 2 3 4, M_bind at 1 2 3 4, _SPINLOCK, _SPINUNLOCK,
      _mutex_cv_lock.
    rewrite emit_run, Hrun.
    unfold mbind, M_bind, mret, M_ret. rewrite !emit_run.
    rewrite wait_epilogue_run. rewrite Hib.
    cbn [negb threads emitted conds mutexes errno trace].
    rewrite Hcont. unfold emitted; cbn. by rewrite <- !app_assoc.
Qed.

(** ** Brackets: cancellation points, the structure lock, the mutex *)

Create HintDb weigh.

Lemma count_events_app wt (evs evs' : list event) :
  count_events wt (evs ++ evs') = count_events wt evs + count_events wt evs'.
Proof.
  induction evs as [|e evs IH]; simpl; [done|]. rewrite IH. lia.
Qed.

Lemma weighs_ret {A : Type} wt (a : A) (f : A → Z) :
  f a = 0 → weighs wt (mret a) f.
Proof.
  intros Hf w a' w' Hrun. unfold mret, M_ret in Hrun. simplify_eq.
  exists []. by rewrite app_nil_r.
Qed.

Lemma weighs_bind {A B : Type} wt (m : M A) (k : A → M B) (f : A → Z) (g : B → Z) :
  weighs wt m f →
  (∀ a, weighs wt (k a) (λ b, g b - f a)) →
  weighs wt (m ≫= k) g.
Proof.
  intros Hm Hk w b w'. unfold mbind, M_bind.
  destruct (m w) as [a w1| | |] eqn:E; [|done|done|done]. intros Hrun.
  destruct (Hm _ _ _ E) as (evs1 & Ht1 & Hc1).
  destruct (Hk a _ _ _ Hrun) as (evs2 & Ht2 & Hc2).
  exists (evs1 ++ evs2). split.
  - by rewrite Ht2, Ht1, app_assoc.
  - rewrite count_events_app. lia.
Qed.

Lemma weighs_bind_ret {A B : Type} wt (a : A) (k : A → M B) (g : B → Z) :
  weighs wt (k a) g → weighs wt (mret a ≫= k) g.
Proof. done. Qed.

Lemma weighs_bind_assoc {A B C : Type} wt (m : M A) (k1 : A → M B)
    (k2 : B → M C) (g : C → Z) :
  weighs wt (m ≫= λ a, k1 a ≫= k2) g → weighs wt ((m ≫= k1) ≫= k2) g.
Proof.
  intros H w c w' Hrun. apply H. revert Hrun. unfold mbind, M_bind.
  by destruct (m w).
Qed.

Lemma weighs_emit wt e : weighs wt (emit e) (λ _, wt e).
Proof.
  intros w a w' Hrun. unfold emit in Hrun. simplify_eq.
  exists [e]. split; [done|]. simpl. lia.
Qed.

Lemma weighs_silent {A : Type} wt (m : M A) :
  (∀ w a w', m w = Done a w' → trace w' = trace w) →
  weighs wt m (λ _, 0).
Proof.
  intros Hm w a w' Hrun. exists []. rewrite app_nil_r. split; [|done].
  by eapply Hm.
Qed.

Lemma weighs_fault {A : Type} wt (f : A → Z) : weighs wt fault f.
Proof. by intros w a w'. Qed.

Lemma weighs_spin {A : Type} wt (f : A → Z) : weighs wt (λ _, Spin) f.
Proof. by intros w a w'. Qed.

Lemma weighs_stale {A : Type} wt (f : A → Z) : weighs wt stale f.
Proof. by intros w a w'. Qed.

Lemma weighs_fault_bind {A B : Type} wt (k : A → M B) (g : B → Z) :
  weighs wt (fault ≫= k) g.
Proof. by intros w a w'. Qed.

Lemma weighs_spin_bind {A B : Type} wt (k : A → M B) (g : B → Z) :
  weighs wt ((λ _, Spin) ≫= k) g.
Proof. by intros w a w'. Qed.

Lemma weighs_load_handle wt l : weighs wt (load_handle l) (λ _, 0).
Proof.
  apply weighs_silent. intros w a w' Hrun. unfold load_handle in Hrun. by simplify_eq.
Qed.

Lemma weighs_load_mutex wt a : weighs wt (load_mutex a) (λ _, 0).
Proof.
  apply weighs_silent. intros w x w' Hrun. unfold load_mutex in Hrun. by simplify_eq.
Qed.

Lemma weighs_get_cond wt l : weighs wt (get_cond l) (λ _, 0).
Proof.
  apply weighs_silent. intros w a w'. unfold get_cond.
  destruct (conds w !! l); [|done]. intros Hrun. by simplify_eq.
Qed.

Lemma weighs_put_cond wt l c : weighs wt (put_cond l c) (λ _, 0).
Proof.
  apply weighs_silent. intros w a w' Hrun. unfold put_cond in Hrun. by simplify_eq.
Qed.

Lemma weighs_get_threads wt : weighs wt get_threads (λ _, 0).
Proof.
  apply weighs_silent. intros w a w' Hrun. unfold get_threads in Hrun. by simplify_eq.
Qed.

Lemma weighs_put_threads wt ths : weighs wt (put_threads ths) (λ _, 0).
Proof.
  apply weighs_silent. intros w a w' Hrun. unfold put_threads in Hrun. by simplify_eq.
Qed.

Lemma weighs_modify_thread wt t f : weighs wt (modify_thread t f) (λ _, 0).
Proof.
  apply weighs_silent. intros w a w' Hrun. unfold modify_thread in Hrun. by simplify_eq.
Qed.

Lemma weighs_set_errno wt v : weighs wt (set_errno v) (λ _, 0).
Proof.
  apply weighs_silent. intros w a w' Hrun. unfold set_errno in Hrun. by simplify_eq.
Qed.

#[local] Hint Resolve weighs_emit weighs_fault weighs_spin weighs_stale
  weighs_load_handle
  weighs_load_mutex weighs_get_cond weighs_put_cond
  weighs_get_threads weighs_put_threads weighs_modify_thread weighs_set_errno
  : weigh.

(** Walks the paths of a piece of code, adding up the weights. *)
Ltac weigh_step :=
  lazymatch goal with
  | |- weighs _ (mret _ ≫= _) _ => apply weighs_bind_ret
  | |- weighs _ (mret _) _ => apply weighs_ret; first [cbn; lia | vm_compute; lia]
  | |- weighs _ (fault ≫= _) _ => apply weighs_fault_bind
  | |- weighs _ ((λ _, Spin) ≫= _) _ => apply weighs_spin_bind
  | |- weighs _ ((match ?x with _ => _ end) ≫= _) _ => destruct x
  | |- weighs _ ((_ ≫= _) ≫= _) _ => apply weighs_bind_assoc
  | |- weighs _ (_ ≫= _) _ =>
      eapply weighs_bind; [solve [auto with weigh]|intros ?; cbn beta]
  | |- weighs _ (match ?x with _ => _ end) _ => destruct x
  | |- weighs _ _ _ => solve [auto with weigh]
  end.

Ltac weigh :=
  unfold _SPINLOCK, _SPINUNLOCK, _thread_enter_cancellation_point,
    _thread_leave_cancellation_point, _thread_kern_sig_defer,
    _thread_kern_sig_undefer, _thread_kern_sched_state_unlock,
    _mutex_cv_lock, _mutex_cv_unlock;
  repeat weigh_step.

Lemma weighs_pthread_cond_init wt cond cond_attr malloc :
  weighs wt (pthread_cond_init cond cond_attr malloc) (λ _, 0).
Proof. unfold pthread_cond_init. weigh. Qed.

Lemma weighs_init_static_queue wt l : weighs wt (init_static_queue l) (λ _, 0).
Proof. unfold init_static_queue. weigh. Qed.

Lemma weighs_enq_self wt l t : weighs wt (enq_self l t) (λ _, 0).
Proof. unfold enq_self. weigh. Qed.

Lemma weighs_remove_self wt l t : weighs wt (remove_self l t) (λ _, 0).
Proof. unfold remove_self. weigh. Qed.

#[local] Hint Resolve weighs_pthread_cond_init weighs_init_static_queue
  weighs_enq_self weighs_remove_self : weigh.

Ltac weigh_wait :=
  unfold pthread_cond_wait_enter, pthread_cond_timedwait_enter,
    pthread_cond_wait_resume, pthread_cond_timedwait_resume,
    pthread_cond_wait_switch, pthread_cond_timedwait_switch,
    unlock_and_fail, unlock_and_block, wait_epilogue;
  cbv zeta; weigh.

(** X18.  Cancellation points are entered and left in pairs.  Whenever
    [pthread_cond_wait] or [pthread_cond_timedwait] returns before blocking,
    whatever its arguments and on every path (null pointers, failed
    initialisation, ill-formed deadline, rejected mutex, unknown type,
    failed unlock), it has called [_thread_leave_cancellation_point] as
    often as [_thread_enter_cancellation_point]; when it blocks it has
    entered two more than it has left, and the rest of the function, run
    when the thread is rescheduled, leaves two more than it enters on every
    path. *)
Theorem cancellation_points_are_balanced
    (thread_run l a : nat) (cond mutex : option nat) (abstime : option timespec)
    (malloc : option Z) (unlock_rv lock_rv : Z) :
  let entered (r : outcome) := match r with Blocked => 2 | Returned _ => 0 end in
  weighs cancellation_weight
    (pthread_cond_wait_enter thread_run cond mutex malloc unlock_rv) entered
  ∧ weighs cancellation_weight
      (pthread_cond_timedwait_enter thread_run cond mutex abstime malloc unlock_rv)
      entered
  ∧ weighs cancellation_weight
      (pthread_cond_wait_resume thread_run l a lock_rv) (λ _, -2)
  ∧ weighs cancellation_weight
      (pthread_cond_timedwait_resume thread_run l a lock_rv) (λ _, -2).
Proof.
  intros entered. subst entered. repeat split; weigh_wait.
Qed.

(** X19.  No wait, signal or broadcast returns, or blocks, holding the
    structure lock.  On every path of [pthread_cond_wait] and
    [pthread_cond_timedwait] up to the point where the caller returns or
    blocks, of the rest of both functions, of [pthread_cond_signal] and of
    [pthread_cond_broadcast], the calls of [_SPINLOCK] are as many as the
    releases, made by [_SPINUNLOCK] or by the scheduler when it blocks the
    caller. *)
Theorem structure_lock_is_released
    (thread_run l a : nat) (cond mutex : option nat) (abstime : option timespec)
    (malloc : option Z) (unlock_rv lock_rv : Z) :
  weighs guard_weight
    (pthread_cond_wait_enter thread_run cond mutex malloc unlock_rv) (λ _, 0)
  ∧ weighs guard_weight
      (pthread_cond_timedwait_enter thread_run cond mutex abstime malloc unlock_rv)
      (λ _, 0)
  ∧ weighs guard_weight (pthread_cond_wait_resume thread_run l a lock_rv) (λ _, 0)
  ∧ weighs guard_weight (pthread_cond_timedwait_resume thread_run l a lock_rv)
      (λ _, 0)
  ∧ weighs guard_weight (pthread_cond_signal cond) (λ _, 0)
  ∧ weighs guard_weight (pthread_cond_broadcast cond) (λ _, 0).
Proof.
  repeat split; try weigh_wait;
    unfold pthread_cond_signal, pthread_cond_broadcast, cond_queue_deq;
    weigh.
Qed.

(** X20.  The mutex is reacquired exactly once after every block, and only
    then.  The rest of [pthread_cond_wait] and of [pthread_cond_timedwait]
    calls [_mutex_cv_lock] exactly once on every path (woken, timed out or
    interrupted) and never calls [_mutex_cv_unlock]; up to the point where
    the caller returns or blocks neither function calls [_mutex_cv_lock],
    so a wait that returns without blocking leaves the mutex to its caller
    as the unlock attempt left it.  [pthread_cond_signal] and
    [pthread_cond_broadcast] call neither. *)
Theorem mutex_is_reacquired_exactly_once
    (thread_run l a : nat) (cond mutex : option nat) (abstime : option timespec)
    (malloc : option Z) (unlock_rv lock_rv : Z) :
  weighs lock_weight (pthread_cond_wait_resume thread_run l a lock_rv) (λ _, 1)
  ∧ weighs lock_weight (pthread_cond_timedwait_resume thread_run l a lock_rv)
      (λ _, 1)
  ∧ weighs unlock_weight (pthread_cond_wait_resume thread_run l a lock_rv)
      (λ _, 0)
  ∧ weighs unlock_weight (pthread_cond_timedwait_resume thread_run l a lock_rv)
      (λ _, 0)
  ∧ weighs lock_weight
      (pthread_cond_wait_enter thread_run cond mutex malloc unlock_rv) (λ _, 0)
  ∧ weighs lock_weight
      (pthread_cond_timedwait_enter thread_run cond mutex abstime malloc unlock_rv)
      (λ _, 0)
  ∧ weighs lock_weight (pthread_cond_signal cond) (λ _, 0)
  ∧ weighs unlock_weight (pthread_cond_signal cond) (λ _, 0)
  ∧ weighs lock_weight (pthread_cond_broadcast cond) (λ _, 0)
  ∧ weighs unlock_weight (pthread_cond_broadcast cond) (λ _, 0).
Proof.
  repeat split; try weigh_wait;
    unfold pthread_cond_signal, pthread_cond_broadcast, cond_queue_deq; weigh.
Qed.

(** X21.  Signal deferral brackets the work of a signal and of a broadcast:
    on every path of [pthread_cond_signal] and [pthread_cond_broadcast],
    including the null-pointer and unknown-type paths that return EINVAL,
    [_thread_kern_sig_undefer] is called as often as
    [_thread_kern_sig_defer]. *)
Theorem signal_deferral_is_ended (cond : option nat) :
  weighs defer_weight (pthread_cond_signal cond) (λ _, 0)
  ∧ weighs defer_weight (pthread_cond_broadcast cond) (λ _, 0).
Proof.
  split; unfold pthread_cond_signal, pthread_cond_broadcast, cond_queue_deq;
    weigh.
Qed.

(** ** Waits that find no variable *)

(** X22.  A wait that cannot get a condition variable returns at once.
    With a null handle pointer [pthread_cond_wait] returns EINVAL; on a
    zero-valued placeholder whose allocation fails, [pthread_cond_wait]
    and [pthread_cond_timedwait] (with a well-formed deadline) return
    ENOMEM.  In each case the caller does not block, the handle, the
    threads and [errno] are unchanged, the one cancellation point entered
    is left, and neither the structure lock nor the mutex layer is
    touched. *)
Theorem wait_without_variable_returns_at_once
    (thread_run l : nat) (mutex : option nat) (malloc : option Z)
    (ts : timespec) (unlock_rv : Z) (w : world) :
  conds w !! l = None →
  let early := emitted w [EnterCancellationPoint; LeaveCancellationPoint] in
  pthread_cond_wait_enter thread_run None mutex malloc unlock_rv w
  = Done (Returned EINVAL) early
  ∧ pthread_cond_wait_enter thread_run (Some l) mutex None unlock_rv w
    = Done (Returned ENOMEM) early
  ∧ (valid_deadline ts →
     pthread_cond_timedwait_enter thread_run (Some l) mutex (Some ts) None
       unlock_rv w
     = Done (Returned ENOMEM) early).
Proof.
  intros Hc early. subst early. split; [|split; [|intros Hv]].
  - unfold pthread_cond_wait_enter. run_m. by rewrite <- !app_assoc.
  - unfold pthread_cond_wait_enter, pthread_cond_init. run_m. rewrite Hc. run_m.
    by rewrite <- !app_assoc.
  - unfold pthread_cond_timedwait_enter.
    unfold mbind at 1, M_bind at 1, _thread_enter_cancellation_point at 1.
    rewrite emit_run. cbv zeta. rewrite (valid_deadline_test ts Hv).
    unfold pthread_cond_init. run_m. rewrite Hc. run_m.
    by rewrite <- !app_assoc.
Qed.

(** ** The further properties on concrete worlds *)

Lemma queue_wf_check c ths :
  NoDup (c_queue c) → Forall (λ t, in_condq ths t = true) (c_queue c) →
  queue_wf c ths.
Proof. intros Hnd Hf. split; [done|]. by apply Forall_forall. Qed.

Lemma cond_queue_keeps_representation_witness :
  ∃ cond' ths',
    cond_queue_remove
      (PthreadCond [1; 3]%nat COND_FLAGS_INITED COND_TYPE_FAST (Some 77%nat)) 1
      (threads two_waiters_world)
    = Some (cond', ths')
    ∧ queue_wf cond' ths' ∧ 1%nat ∉ c_queue cond'.
Proof.
  refine (proj2 (proj2 (cond_queue_keeps_representation
            (PthreadCond [1; 3]%nat COND_FLAGS_INITED COND_TYPE_FAST (Some 77%nat))
            (threads two_waiters_world) _)) 1%nat _).
  - apply queue_wf_check.
    + by apply (bool_decide_unpack _).
    + repeat constructor.
  - intros _. by apply (bool_decide_unpack _).
Defined.

Lemma cond_queue_enq_remove_round_trip_witness :
  ∃ cond1 ths1 ths2,
    cond_queue_enq
      (PthreadCond [1; 3]%nat COND_FLAGS_INITED COND_TYPE_FAST (Some 77%nat)) 4
      (threads two_waiters_world)
    = Some (cond1, ths1)
    ∧ cond_queue_remove cond1 4 ths1
      = Some (PthreadCond [1; 3]%nat COND_FLAGS_INITED COND_TYPE_FAST
                          (Some 77%nat), ths2)
    ∧ ∀ x, deref ths2 x = deref (threads two_waiters_world) x.
Proof.
  apply cond_queue_enq_remove_round_trip.
  - apply queue_wf_check.
    + by apply (bool_decide_unpack _).
    + repeat constructor.
  - reflexivity.
Defined.


Lemma pthread_cond_signal_without_eligible_waiter_witness :
  ∃ w', pthread_cond_signal (Some 7%nat) timed_out_world = Done 0 w'
        ∧ queue_at 7 w' = []
        ∧ state (deref (threads w') 1) = PS_RUNNING
        ∧ in_condq (threads w') 1 = false.
Proof.
  destruct (pthread_cond_signal_without_eligible_waiter 7 timed_out_world
              (PthreadCond [1%nat] COND_FLAGS_INITED COND_TYPE_FAST (Some 77%nat)))
    as (w' & Hrun & Hc & Hst & Hth & _).
  - reflexivity.
  - reflexivity.
  - repeat constructor.
  - exists w'. split; [exact Hrun|]. split.
    + unfold queue_at. by rewrite Hc.
    + unfold in_condq. by rewrite Hst, Hth.
Defined.


Lemma unknown_type_is_rejected_witness :
  pthread_cond_signal (Some 7%nat) unknown_type_world
  = Done EINVAL
      (emitted unknown_type_world [SigDefer; SPINLOCK 7; SPINUNLOCK 7; SigUndefer])
  ∧ pthread_cond_wait_enter 1 (Some 7%nat) (Some 9%nat) None 0 unknown_type_world
    = Done (Returned EINVAL)
        (emitted unknown_type_world
           [EnterCancellationPoint; EnterCancellationPoint; SPINLOCK 7;
            SPINUNLOCK 7; LeaveCancellationPoint; LeaveCancellationPoint]).
Proof.
  destruct (unknown_type_is_rejected 1 7 (Some 9%nat) None 0 (Timespec 5 0)
              unknown_type_world
              (PthreadCond [] COND_FLAGS_INITED COND_TYPE_MAX None))
    as (Hs & _ & Hw & _).
  - reflexivity.
  - discriminate.
  - split; [exact Hs|]. apply Hw. by vm_compute.
Defined.


Lemma pthread_cond_init_destroy_round_trip_witness :
  (pthread_cond_init (Some 7%nat) None (Some 0);; pthread_cond_destroy (Some 7%nat))
    placeholder_world
  = Done 0 (emitted placeholder_world [SPINLOCK 7]).
Proof.
  apply pthread_cond_init_destroy_round_trip.
  - reflexivity.
  - discriminate.
Defined.

Lemma accepted_wait_blocks_queued_and_bound_witness :
  ∃ w', pthread_cond_wait_enter 2 (Some 7%nat) (Some 9%nat) None 0 waiting_world
        = Done Blocked w'
        ∧ queue_at 7 w' = [1; 2]%nat.
Proof.
  destruct (proj1 (accepted_wait_blocks_queued_and_bound 2 7 9 None (Timespec 5 0)
                     waiting_world
                     (PthreadCond [1%nat] COND_FLAGS_INITED COND_TYPE_FAST
                        (Some 77%nat))
                     eq_refl ltac:(by vm_compute) eq_refl (or_intror eq_refl)))
    as (l1 & l2 & Hq & Hrun).
  eexists. split; [exact Hrun|].
  revert Hrun. vm_compute. by intros [= <-].
Defined.

Lemma wait_rolls_back_when_unlock_fails_witness :
  pthread_cond_wait_enter 2 (Some 7%nat) (Some 9%nat) None 1 waiting_world
  = Done (Returned 1)
      (World (conds waiting_world) (mutexes waiting_world)
             (<[2%nat := Pthread PS_RUNNING 0 1 0 0 (Timespec (-1) 0) None]>
                (threads waiting_world))
             0
             [EnterCancellationPoint; EnterCancellationPoint; SPINLOCK 7;
              MutexCvUnlock 9; SPINUNLOCK 7;
              LeaveCancellationPoint; LeaveCancellationPoint]).
Proof.
  refine (proj1 (wait_rolls_back_when_unlock_fails 2 7 9 None 1 (Timespec 5 0)
                   waiting_world
                   (PthreadCond [1%nat] COND_FLAGS_INITED COND_TYPE_FAST
                      (Some 77%nat))
                   eq_refl _ eq_refl _ _ eq_refl (or_intror eq_refl) _)).
  - by vm_compute.
  - by split.
  - apply queue_wf_check.
    + by apply (bool_decide_unpack _).
    + repeat constructor.
  - lia.
Defined.

Lemma broadcast_wakes_blocked_waiter_witness :
  ∃ w1 w2,
    pthread_cond_wait_enter 2 (Some 7%nat) (Some 9%nat) None 0 waiting_world
    = Done Blocked w1
    ∧ pthread_cond_broadcast (Some 7%nat) w1 = Done 0 w2
    ∧ state (deref (threads w2) 2) = PS_RUNNING
    ∧ in_condq (threads w2) 2 = false
    ∧ conds w2 !! 7%nat
      = Some (set_c_mutex None
                (set_c_queue []
                   (PthreadCond [1%nat] COND_FLAGS_INITED COND_TYPE_FAST
                      (Some 77%nat)))).
Proof.
  apply broadcast_wakes_blocked_waiter.
  - reflexivity.
  - by vm_compute.
  - reflexivity.
  - by right.
Defined.

Lemma wait_signal_resume_cycle_witness :
  ∃ w1 w2 w3,
    pthread_cond_wait_enter 1 (Some 7%nat) (Some 9%nat) None 0 idle_world
    = Done Blocked w1
    ∧ pthread_cond_signal (Some 7%nat) w1 = Done 0 w2
    ∧ pthread_cond_wait_resume 1 7 9 0 w2 = Done 0 w3
    ∧ conds w3 = conds idle_world.
Proof.
  destruct (wait_signal_resume_cycle 1 7 9 None 0 idle_world fresh_cond)
    as (w1 & w2 & w3 & H1 & _ & H2 & _ & H3 & H4 & _).
  - reflexivity.
  - by vm_compute.
  - reflexivity.
  - reflexivity.
  - reflexivity.
  - by exists w1, w2, w3.
Defined.

Lemma woken_waiter_only_relocks_witness :
  pthread_cond_wait_resume 1 7 9 0 waiting_world
  = Done 0 (emitted waiting_world
              [MutexCvLock 9; LeaveCancellationPoint; LeaveCancellationPoint])
  ∧ (timeout (deref (threads waiting_world) 1) = 0 →
     pthread_cond_timedwait_resume 1 7 9 0 waiting_world
     = Done 0 (emitted waiting_world
                 [MutexCvLock 9; LeaveCancellationPoint; LeaveCancellationPoint])).
Proof.
  apply woken_waiter_only_relocks. reflexivity.
Defined.

Lemma interrupted_waiter_cleans_up_then_relocks_witness :
  ∃ w',
    pthread_cond_wait_resume 3 7 9 5 (three_waiters_world interrupted_waiter)
    = Done 5 w'
    ∧ pthread_cond_timedwait_resume 3 7 9 5
        (three_waiters_world interrupted_waiter)
      = Done ETIMEDOUT w'
    ∧ conds w' !! 7%nat
      = Some (PthreadCond [1; 4]%nat COND_FLAGS_INITED COND_TYPE_FAST
                          (Some 77%nat))
    ∧ in_condq (threads w') 3 = false
    ∧ deref (threads w') 1
      = deref (threads (three_waiters_world interrupted_waiter)) 1
    ∧ trace w' = [SPINLOCK 7; SPINUNLOCK 7; MutexCvLock 9; Continuation 42 3;
                  LeaveCancellationPoint; LeaveCancellationPoint].
Proof.
  destruct (interrupted_waiter_cleans_up_then_relocks 3 7 9 5
              (three_waiters_world interrupted_waiter)
              (PthreadCond [1; 3; 4]%nat COND_FLAGS_INITED COND_TYPE_FAST
                 (Some 77%nat)))
    as (c' & ths' & H1 & H2 & _ & _ & _ & _ & _ & _ & _ & Hf & _ & Hoth & _).
  - reflexivity.
  - by vm_compute.
  - apply queue_wf_check.
    + by apply (bool_decide_unpack _).
    + repeat constructor.
  - intros _. by apply (bool_decide_unpack _).
  - eexists. split; [exact H1|]. split; [exact H2|]. cbn.
    split; [|split; [exact Hf|split; [by apply Hoth|reflexivity]]].
    rewrite lookup_insert_eq. f_equal.
    revert H1. vm_compute. by intros [= <- <-].
Defined.

Lemma wait_without_variable_returns_at_once_witness :
  pthread_cond_wait_enter 1 None (Some 9%nat) None 0 placeholder_world
  = Done (Returned EINVAL)
      (emitted placeholder_world [EnterCancellationPoint; LeaveCancellationPoint])
  ∧ pthread_cond_wait_enter 1 (Some 7%nat) (Some 9%nat) None 0 placeholder_world
    = Done (Returned ENOMEM)
        (emitted placeholder_world
           [EnterCancellationPoint; LeaveCancellationPoint]).
Proof.
  destruct (wait_without_variable_returns_at_once 1 7 (Some 9%nat) None
              (Timespec 5 0) 0 placeholder_world)
    as (H1 & H2 & _).
  - reflexivity.
  - by split.
Defined.
